(** * remote-sync: the change-detection and batched-upload pipeline

    A shallow embedding of [remote-sync.js].  The script is a set of
    callbacks over six module-level variables; every callback runs to
    completion on the single JavaScript thread.  The embedding therefore
    has one transition function, [step], with one case per callback, over
    a state that holds the script's variables together with the part of
    the runtime the callbacks talk to (the clock, armed timers, open read
    streams, [Client] objects, requested sftp sessions, transfers in
    flight).  What the libraries decide (when a stream ends and with which
    digest, when a connection is ready or fails, how a transfer ends) comes
    in as the events of a trace.  The [SIGINT] listener ends the process and
    is a function of its own, [on_sigint], outside [step].

    A [string] stands for the JavaScript string it is the UTF-8 encoding
    of; for a string of ASCII characters its characters are the code units
    JavaScript counts. *)

From Stdlib Require Import ZArith String Ascii List Bool Lia.
From stdpp Require Import base option list gmap strings.

Local Open Scope string_scope.
Local Open Scope Z_scope.

(** ** JavaScript values and string primitives *)

(** The value of a property read [o[k]] when the own properties hold
    strings: [None] is [undefined], or a method the object inherits, which
    passes the tests below just as [undefined] does. *)
Definition truthy (v : option string) : bool :=
  match v with
  | None => false
  | Some s => negb (String.eqb s EmptyString)
  end.

(** [v !== h] for a property read [v] and a string [h]. *)
Definition strict_neq (v : option string) (h : string) : bool :=
  match v with
  | None => true
  | Some s => negb (String.eqb s h)
  end.

Fixpoint drop_chars (n : nat) (s : string) : string :=
  match n, s with
  | O, _ => s
  | S _, EmptyString => EmptyString
  | S n', String _ r => drop_chars n' r
  end.

Fixpoint take_chars (n : nat) (s : string) : string :=
  match n, s with
  | O, _ => EmptyString
  | S _, EmptyString => EmptyString
  | S n', String c r => String c (take_chars n' r)
  end.

(** [s.substring(a, b)]: both indices are clamped to the length and swapped
    when [a > b]. *)
Definition js_substring (a b : nat) (s : string) : string :=
  let len := String.length s in
  let a' := Nat.min a len in
  let b' := Nat.min b len in
  let lo := Nat.min a' b' in
  let hi := Nat.max a' b' in
  take_chars (hi - lo) (drop_chars lo s).

Definition backslash : ascii := "\"%char.
Definition slash : ascii := "/"%char.

(** [s.replace(/\\/g, "/")] *)
Fixpoint to_forward_slashes (s : string) : string :=
  match s with
  | EmptyString => EmptyString
  | String c r =>
      String (if Ascii.eqb c backslash then slash else c) (to_forward_slashes r)
  end.

Definition is_separator (c : ascii) : bool :=
  Ascii.eqb c backslash || Ascii.eqb c slash.

(** [.] in a regular expression without the [s] flag matches no line
    terminator: line feed, carriage return, and the separators U+2028 and
    U+2029, which are the bytes E2 80 A8 and E2 80 A9. *)
Definition is_line_terminator (c : ascii) : bool :=
  Ascii.eqb c "010"%char || Ascii.eqb c "013"%char.

(** Whether [s] begins with a line terminator. *)
Definition line_terminator_at (s : string) : bool :=
  match s with
  | EmptyString => false
  | String c r =>
      is_line_terminator c ||
      (Ascii.eqb c "226"%char &&
       match r with
       | String d (String e _) =>
           Ascii.eqb d "128"%char && (Ascii.eqb e "168"%char || Ascii.eqb e "169"%char)
       | _ => false
       end)
  end.

(** The text that follows the match of [/^.*[\\\/]/], when there is one:
    the greedy [.*] stops at the last separator of the first line. *)
Fixpoint after_last_separator (s : string) : option string :=
  match s with
  | EmptyString => None
  | String c r =>
      if line_terminator_at (String c r) then None
      else match after_last_separator r with
           | Some t => Some t
           | None => if is_separator c then Some r else None
           end
  end.

(** A string without line terminator. *)
Fixpoint single_line (s : string) : bool :=
  match s with
  | EmptyString => true
  | String c r => negb (line_terminator_at (String c r)) && single_line r
  end.

(** [path.replace(/^.*[\\\/]/, '')] *)
Definition strip_directories (path : string) : string :=
  match after_last_separator path with
  | Some t => t
  | None => path
  end.

(** The decimal digit a character is. *)
Definition digit (c : ascii) : option N :=
  let n := N_of_ascii c in
  if ((48 <=? n) && (n <=? 57))%N then Some (n - 48)%N else None.

Fixpoint decimal (acc : N) (s : string) : option N :=
  match s with
  | EmptyString => Some acc
  | String c r =>
      match digit c with
      | Some d => decimal (10 * acc + d)%N r
      | None => None
      end
  end.

(** An array index: the decimal form, without leading zero, of an integer
    below [2^32 - 1]. *)
Definition array_index (k : string) : option N :=
  match k with
  | EmptyString => None
  | String c r =>
      if Ascii.eqb c "0"%char && negb (String.eqb r EmptyString) then None
      else match decimal 0 k with
           | Some n => if (n <? 4294967295)%N then Some n else None
           | None => None
           end
  end.

(** An object created by [{}] and used as a map from strings to strings:
    its own properties in the order [for (k in o)] visits them, which is
    the array indices in ascending order and then the other keys in the
    order of their creation. *)
Definition obj_keys (o : list (string * string)) : list string := map fst o.

(** Whether [k] is an own property of [o]. *)
Definition obj_has (k : string) (o : list (string * string)) : bool :=
  existsb (String.eqb k) (obj_keys o).

Fixpoint obj_replace (k v : string) (o : list (string * string)) : list (string * string) :=
  match o with
  | [] => []
  | (k', v') :: r =>
      if String.eqb k' k then (k, v) :: r else (k', v') :: obj_replace k v r
  end.

(** A new property whose key is the array index [n] goes before the first
    property that is no smaller index. *)
Fixpoint obj_insert_index (n : N) (k v : string) (o : list (string * string))
  : list (string * string) :=
  match o with
  | [] => [(k, v)]
  | (k', v') :: r =>
      match array_index k' with
      | Some m => if (m <? n)%N then (k', v') :: obj_insert_index n k v r
                  else (k, v) :: (k', v') :: r
      | None => (k, v) :: (k', v') :: r
      end
  end.

(** [o[k] = v] for a string [v].  Assigning to an own property keeps its
    position.  [__proto__] is the accessor the object inherits; its setter
    ignores a value that is no object, and no own property is created. *)
Definition obj_set (k v : string) (o : list (string * string)) : list (string * string) :=
  if String.eqb k "__proto__" then o
  else if obj_has k o then obj_replace k v o
  else match array_index k with
       | Some n => obj_insert_index n k v o
       | None => o ++ [(k, v)]
       end.

(** ** Event emitters *)

(** The closures the script registers as listeners. *)
Inductive listener :=
| L_stream_data    (* (data) => md5sum.update(data)                  l.218 *)
| L_stream_end     (* () => callback(md5sum.digest("hex"))           l.220 *)
| L_conn_ready     (* () => { sftp_ready = true; attempts = 0 }      l.185 *)
| L_conn_error     (* () => { sftp_ready = false; ...; connect }     l.188 *)
| L_conn_drain.    (* () => conn.sftp((err, sftp) => ...)            l.116 *)

Definition listeners_for (name : string) (on : list (string * listener)) : list listener :=
  map snd (filter (fun p => String.eqb (fst p) name) on).

(** [emitter.emit(name)]: the listeners registered for [name], in
    registration order.  An ["error"] event nobody listens to is thrown
    ([None]); any other event without listener is dropped. *)
Definition emit (name : string) (on : list (string * listener)) : option (list listener) :=
  match listeners_for name on with
  | [] => if String.eqb name "error" then None else Some []
  | ls => Some ls
  end.

(** ** Configuration, runtime objects, state *)

Record connSettings := {
  host : string;
  port : Z;
  username : string;
  password : string
}.

(** The values read from [config.json] through [nconf]. *)
Record config := {
  localPath : string;
  remotePath : string;
  sftp : connSettings
}.

(** A [Client] made by [connectToSFTPServer], with the [attempts] counter
    its listeners close over. *)
Record client := {
  attempts : nat;
  connected : bool;
  c_on : list (string * listener)
}.

(** A read stream opened by [getHash]; [s_path] is the [path] the callback
    closes over. *)
Record stream := {
  s_path : string;
  s_on : list (string * listener)
}.

(** [hashes] is an array the script uses as a map from relative paths to
    digests: [hashes] holds the own properties it has been given, none of
    which is [length] or [__proto__] (see [checkAndUpdate] and [on_hash]).
    [updates] is an object it uses as a map from paths to relative
    paths. *)
Record state := {
  (* the script's variables, l.12-33 *)
  hashes : gmap string string;
  updates : list (string * string);
  timeout : option nat;
  sftp_ready : bool;
  watcher_ready : bool;
  conn : option nat;
  (* the runtime *)
  now : Z;                          (* milliseconds *)
  timers : list (nat * Z);          (* armed timers: handle, earliest firing time *)
  next_timer : nat;
  streams : gmap nat stream;        (* open read streams *)
  next_stream : nat;
  clients : list client;            (* Client objects, by order of creation *)
  sessions : list nat;              (* sftp sessions requested, by client *)
  transfers : list nat;             (* fastPut calls not yet called back *)
  next_transfer : nat
}.

Definition init : state := {|
  hashes := ∅; updates := []; timeout := None;
  sftp_ready := false; watcher_ready := false; conn := None;
  now := 0; timers := []; next_timer := O;
  streams := ∅; next_stream := O;
  clients := []; sessions := []; transfers := []; next_transfer := O
|}.

Definition set_hashes (h : gmap string string) (s : state) : state :=
  {| hashes := h; updates := updates s; timeout := timeout s;
     sftp_ready := sftp_ready s; watcher_ready := watcher_ready s; conn := conn s;
     now := now s; timers := timers s; next_timer := next_timer s;
     streams := streams s; next_stream := next_stream s;
     clients := clients s; sessions := sessions s;
     transfers := transfers s; next_transfer := next_transfer s |}.

Definition set_updates (u : list (string * string)) (s : state) : state :=
  {| hashes := hashes s; updates := u; timeout := timeout s;
     sftp_ready := sftp_ready s; watcher_ready := watcher_ready s; conn := conn s;
     now := now s; timers := timers s; next_timer := next_timer s;
     streams := streams s; next_stream := next_stream s;
     clients := clients s; sessions := sessions s;
     transfers := transfers s; next_transfer := next_transfer s |}.

Definition set_timeout (t : option nat) (s : state) : state :=
  {| hashes := hashes s; updates := updates s; timeout := t;
     sftp_ready := sftp_ready s; watcher_ready := watcher_ready s; conn := conn s;
     now := now s; timers := timers s; next_timer := next_timer s;
     streams := streams s; next_stream := next_stream s;
     clients := clients s; sessions := sessions s;
     transfers := transfers s; next_transfer := next_transfer s |}.

Definition set_sftp_ready (b : bool) (s : state) : state :=
  {| hashes := hashes s; updates := updates s; timeout := timeout s;
     sftp_ready := b; watcher_ready := watcher_ready s; conn := conn s;
     now := now s; timers := timers s; next_timer := next_timer s;
     streams := streams s; next_stream := next_stream s;
     clients := clients s; sessions := sessions s;
     transfers := transfers s; next_transfer := next_transfer s |}.

Definition set_watcher_ready (b : bool) (s : state) : state :=
  {| hashes := hashes s; updates := updates s; timeout := timeout s;
     sftp_ready := sftp_ready s; watcher_ready := b; conn := conn s;
     now := now s; timers := timers s; next_timer := next_timer s;
     streams := streams s; next_stream := next_stream s;
     clients := clients s; sessions := sessions s;
     transfers := transfers s; next_transfer := next_transfer s |}.

Definition set_conn (c : option nat) (s : state) : state :=
  {| hashes := hashes s; updates := updates s; timeout := timeout s;
     sftp_ready := sftp_ready s; watcher_ready := watcher_ready s; conn := c;
     now := now s; timers := timers s; next_timer := next_timer s;
     streams := streams s; next_stream := next_stream s;
     clients := clients s; sessions := sessions s;
     transfers := transfers s; next_transfer := next_transfer s |}.

Definition set_now (t : Z) (s : state) : state :=
  {| hashes := hashes s; updates := updates s; timeout := timeout s;
     sftp_ready := sftp_ready s; watcher_ready := watcher_ready s; conn := conn s;
     now := t; timers := timers s; next_timer := next_timer s;
     streams := streams s; next_stream := next_stream s;
     clients := clients s; sessions := sessions s;
     transfers := transfers s; next_transfer := next_transfer s |}.

Definition set_timers (ts : list (nat * Z)) (n : nat) (s : state) : state :=
  {| hashes := hashes s; updates := updates s; timeout := timeout s;
     sftp_ready := sftp_ready s; watcher_ready := watcher_ready s; conn := conn s;
     now := now s; timers := ts; next_timer := n;
     streams := streams s; next_stream := next_stream s;
     clients := clients s; sessions := sessions s;
     transfers := transfers s; next_transfer := next_transfer s |}.

Definition set_streams (m : gmap nat stream) (n : nat) (s : state) : state :=
  {| hashes := hashes s; updates := updates s; timeout := timeout s;
     sftp_ready := sftp_ready s; watcher_ready := watcher_ready s; conn := conn s;
     now := now s; timers := timers s; next_timer := next_timer s;
     streams := m; next_stream := n;
     clients := clients s; sessions := sessions s;
     transfers := transfers s; next_transfer := next_transfer s |}.

Definition set_clients (cs : list client) (s : state) : state :=
  {| hashes := hashes s; updates := updates s; timeout := timeout s;
     sftp_ready := sftp_ready s; watcher_ready := watcher_ready s; conn := conn s;
     now := now s; timers := timers s; next_timer := next_timer s;
     streams := streams s; next_stream := next_stream s;
     clients := cs; sessions := sessions s;
     transfers := transfers s; next_transfer := next_transfer s |}.

Definition set_sessions (l : list nat) (s : state) : state :=
  {| hashes := hashes s; updates := updates s; timeout := timeout s;
     sftp_ready := sftp_ready s; watcher_ready := watcher_ready s; conn := conn s;
     now := now s; timers := timers s; next_timer := next_timer s;
     streams := streams s; next_stream := next_stream s;
     clients := clients s; sessions := l;
     transfers := transfers s; next_transfer := next_transfer s |}.

Definition set_transfers (l : list nat) (n : nat) (s : state) : state :=
  {| hashes := hashes s; updates := updates s; timeout := timeout s;
     sftp_ready := sftp_ready s; watcher_ready := watcher_ready s; conn := conn s;
     now := now s; timers := timers s; next_timer := next_timer s;
     streams := streams s; next_stream := next_stream s;
     clients := clients s; sessions := sessions s;
     transfers := l; next_transfer := n |}.

(** ** Effects and events *)

(** What a callback does to the outside world. *)
Inductive action :=
| ConsoleInfo (msg : string)
| ConsoleError (err : string)
| StdoutWrite (text : string)
| ReadStream (id : nat) (path : string)            (* fs.ReadStream(path) *)
| SetTimeout (id : nat) (delay : Z)
| ClearTimeout (id : nat)
| NewClient (c : nat)                              (* new Client() *)
| Connect (c : nat) (settings : connSettings)      (* conn.connect(connSettings) *)
| SftpOpen (c : nat)                               (* conn.sftp(cb) *)
| FastPut (t : nat) (local remote : string).       (* sftp.fastPut(local, remote, cb) *)

(** What the runtime delivers to the script.  [digest] in [StreamEnd] is
    the value [md5sum.digest("hex")] returns when the stream ends. *)
Inductive event :=
| Elapse (ms : Z)
| WatcherReady
| WatcherAll (ev path : string)
| StreamData (id : nat) (chunk : string)
| StreamEnd (id : nat) (digest : string)
| StreamError (id : nat) (err : string)
| TimerFire (id : nat)
| ConnReady (c : nat)
| ConnError (c : nat) (err : string)
| SftpCallback (c : nat) (err : option string)
| FastPutCallback (t : nat) (err : option string).

(** The result of delivering one event: the callback returns, or throws
    with nobody to catch it (the process dies) after the actions [acts], or
    there is no transition: the runtime cannot deliver the event in this
    state, or what happens next is not described here. *)
Inductive outcome :=
| Ok (s : state) (acts : list action)
| Uncaught (acts : list action) (err : string)
| Disabled.

Definition bind (o : outcome) (k : state -> outcome) : outcome :=
  match o with
  | Ok s a =>
      match k s with
      | Ok s' a' => Ok s' (a ++ a')
      | Uncaught a' err => Uncaught (a ++ a') err
      | Disabled => Disabled
      end
  | other => other
  end.

(** ** The script *)

(** l.234-236 *)
Definition getRelativePath (root fullPath : string) : string :=
  to_forward_slashes (js_substring (String.length root) (String.length fullPath) fullPath).

(** The ledger test and update of l.86-89: the condition
    [!hashes[relativePath] || (hashes[relativePath] !== hash)] and, when it
    holds, the assignment [hashes[relativePath] = hash], for a key other
    than [length] (for which see [on_hash]).  [hashes.__proto__] is the
    prototype of the array: an object, which passes the test whatever the
    hash, and the assignment of a string to it is ignored. *)
Definition checkAndUpdate (h : gmap string string) (relativePath hash : string)
  : bool * gmap string string :=
  if String.eqb relativePath "__proto__" then (true, h)
  else if negb (truthy (h !! relativePath)) || strict_neq (h !! relativePath) hash
  then (true, <[relativePath := hash]> h)
  else (false, h).

Fixpoint has_char (test : ascii -> bool) (s : string) : bool :=
  match s with
  | EmptyString => false
  | String c r => test c || has_char test r
  end.

(** A test that is enough for a string not to be the text of an integer
    below [2^32]: it holds one of the letters a, c, d, f and no x.  These
    letters occur in the text of a number only as hexadecimal digits,
    after [0x], or in [Infinity]. *)
Definition invalid_array_length (v : string) : bool :=
  has_char (fun c => existsb (Ascii.eqb c) ["a"; "c"; "d"; "f"]%char) v
  && negb (has_char (fun c => existsb (Ascii.eqb c) ["x"; "X"]%char) v).

Definition setTimeout (delay : Z) (s : state) : nat * state :=
  let id := next_timer s in
  (id, set_timers (timers s ++ [(id, now s + delay)]) (S id) s).

(** The armed timers once the timer [id] is cancelled or has fired. *)
Definition disarm (id : nat) (ts : list (nat * Z)) : list (nat * Z) :=
  filter (fun t => fst t ≠ id) ts.

(** Clearing a timer that has fired already does nothing. *)
Definition clearTimeout (id : nat) (s : state) : state :=
  set_timers (disarm id (timers s)) (next_timer s) s.

Definition spinner : list string := ["|"; "/"; "-"; "\"].

(** ["\x1b[0G"] *)
Definition cursor_home : string := String "027"%char "[0G".

Definition retry_line (n : nat) : string :=
  "Unable to communicate with sftp server. Retrying "
  +:+ nth (n mod 4) spinner "undefined" +:+ cursor_home.

Definition set_client (c : nat) (cl : client) (s : state) : state :=
  set_clients (<[c := cl]> (clients s)) s.

(** A pending request or transfer leaves the list when it is called back. *)
Fixpoint remove_first (n : nat) (l : list nat) : list nat :=
  match l with
  | [] => []
  | m :: r => if Nat.eqb m n then r else m :: remove_first n r
  end.

Section Script.

Variable cfg : config.

(** The quiescence window, l.150: [5 * 1000]. *)
Definition window : Z := 5 * 1000.

(** l.167-205 *)
Definition connectToSFTPServer (s : state) : nat * state * list action :=
  let c := length (clients s) in
  let cl := {| attempts := 0; connected := false;
               c_on := [("ready", L_conn_ready); ("error", L_conn_error)] |} in
  (c, set_clients (clients s ++ [cl]) s, [NewClient c; Connect c (sftp cfg)]).

(** The callback given to [setTimeout], l.113-146, up to the point where it
    returns: the drain itself is the listener [L_conn_drain]. *)
Definition on_timeout (s : state) : outcome :=
  let '(c, s1, acts) := connectToSFTPServer s in
  let s2 := set_conn (Some c) s1 in
  match clients s2 !! c with
  | Some cl =>
      Ok (set_client c {| attempts := attempts cl; connected := connected cl;
                          c_on := c_on cl ++ [("ready", L_conn_drain)] |} s2) acts
  | None => Uncaught acts "TypeError: conn is undefined"
  end.

(** The callback given to [getHash], l.82-154.  [hashes.length] is the
    length of the array, a number: it passes the test of l.86 whatever the
    hash, and the assignment of l.89 throws a [RangeError] when the hash is
    not the text of an integer below [2^32], as with any digest that holds
    one of the letters a, c, d, f.  What the assignment does to the array
    otherwise is not described here. *)
Definition on_hash (path hash : string) (s : state) : outcome :=
  let relativePath := getRelativePath (localPath cfg) path in
  if String.eqb relativePath "length" then
    if invalid_array_length hash
    then Uncaught [] "RangeError: Invalid array length"
    else Disabled
  else
  let '(changed, h) := checkAndUpdate (hashes s) relativePath hash in
  if changed then
    let s1 := set_hashes h s in
    if watcher_ready s1 then
      let '(s2, a2) := match timeout s1 with
                       | Some t => (clearTimeout t s1, [ClearTimeout t])
                       | None => (s1, [])
                       end in
      let a3 := [ConsoleInfo ("INFO :: file has changed " +:+ strip_directories path)] in
      let s3 := set_updates (obj_set path relativePath (updates s2)) s2 in
      let '(t, s4) := setTimeout window s3 in
      Ok (set_timeout (Some t) s4) (a2 ++ a3 ++ [SetTimeout t window])
    else Ok s1 []
  else Ok s [].

(** l.213-223 *)
Definition getHash (path : string) (s : state) : outcome :=
  let id := next_stream s in
  let st := {| s_path := path;
               s_on := [("data", L_stream_data); ("end", L_stream_end)] |} in
  Ok (set_streams (<[id := st]> (streams s)) (S id) s) [ReadStream id path].

(** The watcher's ['all'] listener, l.72-156. *)
Definition on_all (ev path : string) (s : state) : outcome :=
  if existsb (String.eqb ev) ["add"; "change"] then getHash path s else Ok s [].

(** The watcher's ['ready'] listener, l.64-71. *)
Definition on_watcher_ready (s : state) : outcome :=
  Ok (set_watcher_ready true s)
     [ConsoleInfo "************************************************";
      ConsoleInfo "*  Initial scan complete. Ready for changes.   *";
      ConsoleInfo "************************************************"].

(** The loop of l.125-138 over the own properties of [updates]. *)
Fixpoint fastPut_all (t : nat) (u : list (string * string)) : list action :=
  match u with
  | [] => []
  | (path, rel) :: r => FastPut t path (remotePath cfg +:+ rel) :: fastPut_all (S t) r
  end.

(** The callback given to [conn.sftp], l.117-145.  A path named
    [hasOwnProperty] in the batch hides the method of that name, and the
    test of l.126 throws in the first round of the loop.  With an error
    the second argument is [undefined], and the first [sftp.fastPut]
    throws. *)
Definition on_sftp (err : option string) (s : state) : outcome :=
  let a1 := match err with Some e => [ConsoleError e] | None => [] end in
  let a2 := [StdoutWrite "Writing files to sftp server "] in
  let a4 := [StdoutWrite ("........................ done" +:+ String "010"%char EmptyString)] in
  let n := length (updates s) in
  if obj_has "hasOwnProperty" (updates s)
  then Uncaught (a1 ++ a2) "TypeError: updates.hasOwnProperty is not a function"
  else
  match err, updates s with
  | Some _, _ :: _ =>
      Uncaught (a1 ++ a2)
               "TypeError: Cannot read properties of undefined (reading 'fastPut')"
  | _, u =>
      Ok (set_updates []
            (set_transfers (transfers s ++ seq (next_transfer s) n)
                           (next_transfer s + n)%nat s))
         (a1 ++ a2 ++ fastPut_all (next_transfer s) u ++ a4)
  end.

(** The callback given to [sftp.fastPut], l.128-135. *)
Definition on_fastPut (err : option string) (s : state) : outcome :=
  match err with
  | Some e => Ok s [ConsoleError e]
  | None => Ok s []
  end.

(** One listener of the emitter [id] (a stream or a client), called with
    [payload]. *)
Definition run_listener (id : nat) (payload : string) (l : listener) (s : state) : outcome :=
  match l with
  | L_stream_data => Ok s []
  | L_stream_end =>
      match streams s !! id with
      | Some st => on_hash (s_path st) payload s
      | None => Disabled
      end
  | L_conn_ready =>
      match clients s !! id with
      | Some cl =>
          Ok (set_client id {| attempts := 0; connected := connected cl; c_on := c_on cl |}
                (set_sftp_ready true s)) []
      | None => Disabled
      end
  | L_conn_error =>
      match clients s !! id with
      | Some cl =>
          Ok (set_client id {| attempts := S (attempts cl); connected := connected cl;
                               c_on := c_on cl |}
                (set_sftp_ready false s))
             [StdoutWrite (retry_line (attempts cl)); Connect id (sftp cfg)]
      | None => Disabled
      end
  | L_conn_drain =>
      (* [conn] here is the module-level variable, not the emitter *)
      match conn s with
      | Some g =>
          match clients s !! g with
          | Some cl =>
              (* [conn.sftp] throws on a client that is not connected *)
              if connected cl
              then Ok (set_sessions (sessions s ++ [g]) s) [SftpOpen g]
              else Uncaught [] "Error: Not connected"
          | None => Disabled
          end
      | None => Uncaught [] "TypeError: Cannot read properties of undefined (reading 'sftp')"
      end
  end.

Fixpoint run_listeners (id : nat) (payload : string) (ls : list listener) (s : state) : outcome :=
  match ls with
  | [] => Ok s []
  | l :: r => bind (run_listener id payload l s) (run_listeners id payload r)
  end.

Definition emit_on (id : nat) (name payload : string) (on : list (string * listener))
    (s : state) : outcome :=
  match emit name on with
  | Some ls => run_listeners id payload ls s
  | None => Uncaught [] ("Unhandled 'error' event: " +:+ payload)
  end.

Definition stream_emit (id : nat) (name payload : string) (s : state) : outcome :=
  match streams s !! id with
  | Some st => emit_on id name payload (s_on st) s
  | None => Disabled
  end.

Definition close_stream (id : nat) (s : state) : outcome :=
  Ok (set_streams (delete id (streams s)) (next_stream s) s) [].

Definition set_connected (c : nat) (b : bool) (s : state) : state :=
  match clients s !! c with
  | Some cl => set_client c {| attempts := attempts cl; connected := b; c_on := c_on cl |} s
  | None => s
  end.

Definition client_emit (c : nat) (name payload : string) (s : state) : outcome :=
  match clients s !! c with
  | Some cl => emit_on c name payload (c_on cl) s
  | None => Disabled
  end.

Definition step (e : event) (s : state) : outcome :=
  match e with
  | Elapse ms =>
      if 0 <=? ms then Ok (set_now (now s + ms) s) [] else Disabled
  | WatcherReady => on_watcher_ready s
  | WatcherAll ev path => on_all ev path s
  | StreamData id chunk => stream_emit id "data" chunk s
  | StreamEnd id digest => bind (stream_emit id "end" digest s) (close_stream id)
  | StreamError id err => bind (stream_emit id "error" err s) (close_stream id)
  | TimerFire id =>
      match list_find (fun t => fst t = id) (timers s) with
      | Some (_, (_, due)) =>
          if due <=? now s
          then on_timeout (set_timers (disarm id (timers s)) (next_timer s) s)
          else Disabled
      | None => Disabled
      end
  | ConnReady c =>
      match clients s !! c with
      | Some cl =>
          if connected cl then Disabled
          else client_emit c "ready" EmptyString (set_connected c true s)
      | None => Disabled
      end
  | ConnError c err => client_emit c "error" err (set_connected c false s)
  | SftpCallback c err =>
      if bool_decide (c ∈ sessions s)
      then on_sftp err (set_sessions (remove_first c (sessions s)) s)
      else Disabled
  | FastPutCallback t err =>
      if bool_decide (t ∈ transfers s)
      then on_fastPut err (set_transfers (remove_first t (transfers s)) (next_transfer s) s)
      else Disabled
  end.

(** The result of a whole trace: the final state and, for every event, the
    time at which its callback ran and what it did; for a run that dies,
    the log ends with the event whose callback threw and what it did
    before. *)
Inductive result :=
| Done (s : state) (log : list (Z * event * list action))
| Died (log : list (Z * event * list action)) (e : event) (err : string)
| Impossible.

Fixpoint run (tr : list event) (s : state) : result :=
  match tr with
  | [] => Done s []
  | e :: r =>
      match step e s with
      | Ok s' acts =>
          match run r s' with
          | Done s'' log => Done s'' ((now s, e, acts) :: log)
          | Died log e' err => Died ((now s, e, acts) :: log) e' err
          | Impossible => Impossible
          end
      | Uncaught acts err => Died [(now s, e, acts)] e err
      | Disabled => Impossible
      end
  end.

End Script.

(** ** Reading a run *)

Fixpoint actions_of (log : list (Z * event * list action)) : list (Z * action) :=
  match log with
  | [] => []
  | (t, _, acts) :: r => map (pair t) acts ++ actions_of r
  end.

Definition is_fastPut (a : action) : option (string * string) :=
  match a with
  | FastPut _ l r => Some (l, r)
  | _ => None
  end.

(** The transfers a list of actions starts: local path, remote path. *)
Definition fastPuts (acts : list action) : list (string * string) :=
  omap is_fastPut acts.

Definition is_newClient (a : action) : option nat :=
  match a with
  | NewClient c => Some c
  | _ => None
  end.

(** The [Client] objects a list of actions constructs. *)
Definition newClients (acts : list action) : list nat :=
  omap is_newClient acts.

Definition is_timerFire (e : event) : bool :=
  match e with
  | TimerFire _ => true
  | _ => false
  end.

Definition is_streamEnd (e : event) : bool :=
  match e with
  | StreamEnd _ _ => true
  | _ => false
  end.

Definition is_sftpCallback (e : event) : bool :=
  match e with
  | SftpCallback _ _ => true
  | _ => false
  end.

(** The number of timer expiries in a trace. *)
Definition expiries (tr : list event) : nat :=
  length (List.filter is_timerFire tr).

Definition is_sftpOpen (a : action) : option nat :=
  match a with
  | SftpOpen c => Some c
  | _ => None
  end.

(** The clients a run asks an sftp session of, with the time. *)
Definition sessions_of (log : list (Z * event * list action)) : list (Z * nat) :=
  omap (fun x => match is_sftpOpen (snd x) with
                 | Some c => Some (fst x, c)
                 | None => None
                 end) (actions_of log).

(** The states the script can be in. *)
Definition reachable (cfg : config) (s : state) : Prop :=
  exists tr log, run cfg tr init = Done s log.

(** The listeners [getHash] puts on a stream, and those a [Client] has once
    the timer callback has returned. *)
Definition stream_listeners : list (string * listener) :=
  [("data", L_stream_data); ("end", L_stream_end)].

Definition client_listeners : list (string * listener) :=
  [("ready", L_conn_ready); ("error", L_conn_error); ("ready", L_conn_drain)].

(** The new client once the timer callback has returned. *)
Definition fresh_client : client :=
  {| attempts := 0; connected := false; c_on := client_listeners |}.

Record inv (cfg : config) (s : state) : Prop := {
  inv_streams : forall id st, streams s !! id = Some st -> s_on st = stream_listeners;
  inv_clients : forall c cl, clients s !! c = Some cl -> c_on cl = client_listeners;
  inv_timers : forall t, t ∈ timers s -> timeout s = Some (fst t);
  inv_updates : forall p rel, (p, rel) ∈ updates s -> rel = getRelativePath (localPath cfg) p;
  inv_hashes : forall k, is_Some (hashes s !! k) -> k <> "length" /\ k <> "__proto__"
}.

(** A hash callback that passes the ledger test after the watcher is ready:
    the "qualifying change" of the debounce. *)
Definition qualifying (cfg : config) (s : state) (id : nat) (digest : string) : bool :=
  match streams s !! id with
  | Some st =>
      fst (checkAndUpdate (hashes s) (getRelativePath (localPath cfg) (s_path st)) digest)
      && watcher_ready s
  | None => false
  end.

(** The destination of a batch entry, l.128. *)
Definition destination (cfg : config) (e : string * string) : string * string :=
  (fst e, remotePath cfg +:+ snd e).

(** The callbacks of the transfers started from handle [t], with their
    outcomes. *)
Fixpoint fastPut_callbacks (t : nat) (outs : list (option string)) : list event :=
  match outs with
  | [] => []
  | o :: r => FastPutCallback t o :: fastPut_callbacks (S t) r
  end.

Definition logged_errors (outs : list (option string)) : list action :=
  omap (fun o => match o with Some e => Some (ConsoleError e) | None => None end) outs.

(** Before the watcher is ready: nothing batched, armed, connected or in
    flight. *)
Definition quiet (s : state) : Prop :=
  watcher_ready s = false /\ updates s = [] /\ timers s = [] /\ timeout s = None /\
  clients s = [] /\ conn s = None /\ sessions s = [] /\ transfers s = [].

Definition state_of (r : result) : state :=
  match r with
  | Done s _ => s
  | _ => init
  end.

Definition log_of (r : result) : list (Z * event * list action) :=
  match r with
  | Done _ log => log
  | Died log _ _ => log
  | Impossible => []
  end.

(** The event whose callback threw, and what it threw. *)
Definition died_of (r : result) : option (event * string) :=
  match r with
  | Died _ e err => Some (e, err)
  | _ => None
  end.

(** The transfers of a run with the time they start at, and the timers it
    arms with the time they are armed at. *)
Definition transfers_of (log : list (Z * event * list action)) : list (Z * (string * string)) :=
  omap (fun x => match is_fastPut (snd x) with
                 | Some d => Some (fst x, d)
                 | None => None
                 end) (actions_of log).

Definition armed_of (log : list (Z * event * list action)) : list (Z * nat) :=
  omap (fun x => match snd x with
                 | SetTimeout id _ => Some (fst x, id)
                 | _ => None
                 end) (actions_of log).

(** ** Concrete runs *)

Definition cfg0 : config := {|
  localPath := "/proj/src";
  remotePath := "/var/www/app";
  sftp := {| host := "example.org"; port := 22; username := "dev"; password := "secret" |}
|}.

Definition digest_a : string := "0cc175b9c0f1b6a831c399e269772661".
Definition digest_b : string := "92eb5ffee6ae2fec3ad71c777531578f".
Definition digest_c : string := "4a8a08f09d37b73795649038408b5f33".

(** [index.html] changes at 0 ms and at 2000 ms; the timer armed at 2000 ms
    fires at 7000 ms and the batch is drained. *)
Definition tr_index : list event :=
  [WatcherReady;
   WatcherAll "change" "/proj/src/index.html"; StreamEnd 0 digest_a;
   Elapse 2000;
   WatcherAll "change" "/proj/src/index.html"; StreamEnd 1 digest_b;
   Elapse 5000; TimerFire 1; ConnReady 0; SftpCallback 0 None].

(** A second change 4999 ms after the first: the hashing of the new content
    is about to end. *)
Definition tr_burst : list event :=
  [WatcherReady;
   WatcherAll "change" "/proj/src/index.html"; StreamEnd 0 digest_a;
   Elapse 4999;
   WatcherAll "change" "/proj/src/index.html"].

(** A file seen by the initial scan whose hashing ends after the watcher
    has signalled ready. *)
Definition tr_scan : list event :=
  [WatcherAll "add" "/proj/src/a.css"; WatcherReady; StreamEnd 0 digest_a;
   Elapse 5000; TimerFire 0; ConnReady 0; SftpCallback 0 None].

(** The server refuses the connection made when the first timer fires. *)
Definition tr_refused : list event :=
  [WatcherReady;
   WatcherAll "change" "/proj/src/a.css"; StreamEnd 0 digest_a;
   Elapse 5000; TimerFire 0; ConnError 0 "ECONNREFUSED"].

(** Two more files change at 6000 ms and 10000 ms, and the first connection
    becomes ready at 10500 ms. *)
Definition tr_pending : list event :=
  (tr_refused ++
   [Elapse 1000;
    WatcherAll "change" "/proj/src/b.css"; StreamEnd 1 digest_b;
    Elapse 4000;
    WatcherAll "change" "/proj/src/c.css"; StreamEnd 2 digest_c;
    Elapse 500; ConnReady 0])%list.

Definition tr_late : list event := (tr_pending ++ [SftpCallback 0 None])%list.

(** A transfer fails, and the watcher reports the same file again. *)
Definition tr_failed : list event :=
  [WatcherReady;
   WatcherAll "change" "/proj/src/a.css"; StreamEnd 0 digest_a;
   Elapse 5000; TimerFire 0; ConnReady 0; SftpCallback 0 None;
   FastPutCallback 0 (Some "EACCES");
   WatcherAll "change" "/proj/src/a.css"].

(** A file whose read fails while it is hashed. *)
Definition tr_read_error : list event :=
  [WatcherReady; WatcherAll "change" "/proj/src/a.css";
   StreamData 0 "body{}"; StreamError 0 "EIO"].

(** The session asked for at 10500 ms is refused. *)
Definition tr_no_session : list event :=
  (tr_pending ++ [SftpCallback 0 (Some "EPERM")])%list.

(** A local root written with its closing slash. *)
Definition cfg_slash : config := {|
  localPath := "/proj/src/";
  remotePath := "/var/www/app/";
  sftp := sftp cfg0
|}.

(** A file named [__proto__] under that root is saved twice with the same
    bytes, six seconds apart. *)
Definition tr_proto : list event :=
  [WatcherReady;
   WatcherAll "change" "/proj/src/__proto__"; StreamEnd 0 digest_a;
   Elapse 5000; TimerFire 0; ConnReady 0; SftpCallback 0 None; FastPutCallback 0 None;
   Elapse 1000;
   WatcherAll "change" "/proj/src/__proto__"; StreamEnd 1 digest_a;
   Elapse 5000; TimerFire 1; ConnReady 1; SftpCallback 1 None].

(** A file named [length] under that root changes. *)
Definition tr_length : list event :=
  [WatcherReady; WatcherAll "change" "/proj/src/length"; StreamEnd 0 digest_a].

(** The directory the script is started in is the local root, and the
    watcher reports the file [__proto__] of that directory. *)
Definition cfg_dot : config := {|
  localPath := ".";
  remotePath := "/var/www/app/";
  sftp := sftp cfg0
|}.

Definition tr_dot_proto : list event :=
  [WatcherReady;
   WatcherAll "change" "__proto__"; StreamEnd 0 digest_a;
   Elapse 5000; TimerFire 0; ConnReady 0; SftpCallback 0 None].

(** A Windows root. *)
Definition cfg_win : config := {|
  localPath := "C:\proj\src";
  remotePath := "/var/www/app";
  sftp := sftp cfg0
|}.

Definition tr_win : list event :=
  [WatcherReady;
   WatcherAll "change" "C:\proj\src\css\site.css"; StreamEnd 0 digest_a;
   Elapse 5000; TimerFire 0; ConnReady 0; SftpCallback 0 None].

(** Two batches, one after the other. *)
Definition tr_two : list event :=
  [WatcherReady;
   WatcherAll "change" "/proj/src/a.css"; StreamEnd 0 digest_a;
   Elapse 5000; TimerFire 0; ConnReady 0; SftpCallback 0 None;
   FastPutCallback 0 None;
   WatcherAll "change" "/proj/src/b.css"; StreamEnd 1 digest_b;
   Elapse 5000; TimerFire 1; ConnReady 1; SftpCallback 1 None;
   FastPutCallback 1 (Some "EACCES")].

(** ** Shutdown *)

(** What the [SIGINT] listener does to the outside world. *)
Inductive exit_action :=
| ExitInfo (msg : string)        (* console.info(msg) *)
| ConnEnd (c : nat)              (* conn.end() *)
| WatcherClose                   (* watcher.close() *)
| ProcessExit.                   (* process.exit() *)

(** The listener returns by leaving the process, or throws on the way. *)
Inductive shutdown :=
| Exits (acts : list exit_action)
| Throws (acts : list exit_action) (err : string).

(** The [SIGINT] listener, l.38-55.  [conn] is the module-level variable:
    [conn.end()] throws while nothing has been assigned to it. *)
Definition on_sigint (s : state) : shutdown :=
  let a1 := [ExitInfo "Shutting down..."] in
  let a3 := if watcher_ready s
            then [ExitInfo "Closing watcher..."; WatcherClose]
            else [] in
  let a4 := [ExitInfo "Exiting application..."; ProcessExit] in
  if sftp_ready s then
    match conn s with
    | Some g =>
        Exits (a1 ++ [ExitInfo "Closing SFTP connection..."; ConnEnd g] ++ a3 ++ a4)
    | None =>
        Throws (a1 ++ [ExitInfo "Closing SFTP connection..."])
               "TypeError: Cannot read properties of undefined (reading 'end')"
    end
  else Exits (a1 ++ a3 ++ a4).

(** ** The default ignore pattern *)

Definition dot : ascii := "."%char.

Definition starts_with_dot (s : string) : bool :=
  match s with
  | String c _ => Ascii.eqb c dot
  | EmptyString => false
  end.

(** [/[\/\\]\./.test(path)], the pattern of l.58 the watcher gets when the
    configuration names none: a slash or backslash followed by a dot,
    anywhere in the path. *)
Fixpoint default_ignored (path : string) : bool :=
  match path with
  | EmptyString => false
  | String c r => (is_separator c && starts_with_dot r) || default_ignored r
  end.

(** ** Reading a trace *)

Definition is_connect (a : action) : option (nat * connSettings) :=
  match a with
  | Connect c st => Some (c, st)
  | _ => None
  end.

(** The calls of [connect] among a list of actions: client and settings. *)
Definition connects (acts : list action) : list (nat * connSettings) :=
  omap is_connect acts.

Definition is_connError (e : event) : bool :=
  match e with
  | ConnError _ _ => true
  | _ => false
  end.

(** The number of connection errors in a trace. *)
Definition conn_errors (tr : list event) : nat :=
  length (List.filter is_connError tr).

(** The value of a flag the last ['ready'] or ['error'] of any connection
    leaves, starting from [b]. *)
Fixpoint last_conn_event (b : bool) (tr : list event) : bool :=
  match tr with
  | [] => b
  | ConnReady _ :: r => last_conn_event true r
  | ConnError _ _ :: r => last_conn_event false r
  | _ :: r => last_conn_event b r
  end.




Definition is_watcherReady (e : event) : bool :=
  match e with
  | WatcherReady => true
  | _ => false
  end.

Definition is_readStream (a : action) : option string :=
  match a with
  | ReadStream _ path => Some path
  | _ => None
  end.

(** The paths a list of actions opens a read stream on. *)
Definition reads (acts : list action) : list string :=
  omap is_readStream acts.

Definition watched_path (e : event) : option string :=
  match e with
  | WatcherAll ev path =>
      if existsb (String.eqb ev) ["add"; "change"] then Some path else None
  | _ => None
  end.

(** The paths the watcher reports as added or changed in a trace. *)
Definition watched (tr : list event) : list string :=
  omap watched_path tr.

(** Characters of a string that satisfy none of a test. *)
Definition none_of (test : ascii -> bool) (s : string) : Prop :=
  forall c, In c (list_ascii_of_string s) -> test c = false.

(** A byte of a character that is not ASCII. *)
Definition non_ascii (c : ascii) : bool := (127 <? N_of_ascii c)%N.

(** Two connections ready at once: the second timer fires while the first
    connection is still up. *)
Definition tr_both : list event :=
  [WatcherReady;
   WatcherAll "change" "/proj/src/a.css"; StreamEnd 0 digest_a;
   Elapse 5000; TimerFire 0; ConnReady 0; SftpCallback 0 None;
   WatcherAll "change" "/proj/src/b.css"; StreamEnd 1 digest_b;
   Elapse 5000; TimerFire 1].

(** The second connection fails while the first one is up. *)
Definition tr_both_failed : list event :=
  (tr_both ++ [ConnError 1 "ECONNRESET"])%list.

(** The same file reported twice in a row; the hashing started last ends
    first. *)
Definition tr_race : list event :=
  [WatcherReady;
   WatcherAll "change" "/proj/src/a.css"; WatcherAll "change" "/proj/src/a.css";
   StreamEnd 1 digest_b].

(** * Properties *)

(** ** Strings *)

Lemma length_append (a b : string) :
  String.length (a +:+ b) = (String.length a + String.length b)%nat.
Proof. induction a as [|c a IH]; simpl; [reflexivity | now rewrite IH]. Qed.

Lemma drop_chars_append (a b : string) : drop_chars (String.length a) (a +:+ b) = b.
Proof. induction a as [|c a IH]; simpl; [now destruct b | exact IH]. Qed.

Lemma take_chars_all (s : string) : take_chars (String.length s) s = s.
Proof. induction s as [|c s IH]; simpl; [reflexivity | now rewrite IH]. Qed.

Lemma js_substring_suffix (root rest : string) :
  js_substring (String.length root) (String.length (root +:+ rest)) (root +:+ rest) = rest.
Proof.
  unfold js_substring. rewrite length_append.
  replace (Nat.min (String.length root) (String.length root + String.length rest))
    with (String.length root) by lia.
  rewrite Nat.min_id.
  replace (Nat.min (String.length root) (String.length root + String.length rest))
    with (String.length root) by lia.
  replace (Nat.max (String.length root) (String.length root + String.length rest)
           - String.length root)%nat with (String.length rest) by lia.
  rewrite drop_chars_append. apply take_chars_all.
Qed.

Lemma getRelativePath_strips_root (root rest : string) :
  getRelativePath root (root +:+ rest) = to_forward_slashes rest.
Proof. unfold getRelativePath. now rewrite js_substring_suffix. Qed.

Lemma to_forward_slashes_clean (s : string) :
  ~ In backslash (list_ascii_of_string (to_forward_slashes s)).
Proof.
  induction s as [|c s IH]; simpl; [tauto |].
  intros [H | H]; [| tauto].
  destruct (Ascii.eqb_spec c backslash) as [-> | Hne]; [discriminate H | congruence].
Qed.

(** ** The ledger *)

Lemma eqb_empty_false (s : string) : s <> EmptyString -> String.eqb s EmptyString = false.
Proof. intros H. now apply String.eqb_neq. Qed.

Lemma checkAndUpdate_plain (h : gmap string string) (relativePath hash : string) :
  relativePath <> "__proto__" ->
  checkAndUpdate h relativePath hash
  = if negb (truthy (h !! relativePath)) || strict_neq (h !! relativePath) hash
    then (true, <[relativePath := hash]> h)
    else (false, h).
Proof.
  intros Hp. unfold checkAndUpdate.
  now destruct (String.eqb_spec relativePath "__proto__").
Qed.

(** The ledger test answers [false] exactly when the hash is the stored
    one. *)
Lemma checkAndUpdate_false (h : gmap string string) (relativePath hash : string) :
  relativePath <> "__proto__" -> hash <> EmptyString ->
  fst (checkAndUpdate h relativePath hash) = false <-> h !! relativePath = Some hash.
Proof.
  intros Hp Hne. rewrite checkAndUpdate_plain by exact Hp. unfold truthy, strict_neq.
  destruct (h !! relativePath) as [old|]; simpl; [| split; discriminate].
  destruct (String.eqb_spec old hash) as [-> | Hdiff].
  - rewrite (eqb_empty_false _ Hne). simpl. tauto.
  - rewrite orb_true_r. simpl. split; [discriminate | congruence].
Qed.

(** What the ledger holds after the test and update. *)
Lemma checkAndUpdate_snd (h : gmap string string) (relativePath hash : string) :
  snd (checkAndUpdate h relativePath hash) = h \/
  (relativePath <> "__proto__" /\
   snd (checkAndUpdate h relativePath hash) = <[relativePath := hash]> h).
Proof.
  unfold checkAndUpdate. destruct (String.eqb_spec relativePath "__proto__"); [now left |].
  destruct (negb _ || _); cbn; auto.
Qed.

(** The same bytes twice: the second test answers [false]. *)
Lemma checkAndUpdate_twice (h : gmap string string) (relativePath hash : string) :
  relativePath <> "__proto__" -> hash <> EmptyString ->
  fst (checkAndUpdate (snd (checkAndUpdate h relativePath hash)) relativePath hash) = false.
Proof.
  intros Hp Hne. apply checkAndUpdate_false; [exact Hp | exact Hne |].
  rewrite checkAndUpdate_plain by exact Hp.
  destruct (negb (truthy (h !! relativePath)) || strict_neq (h !! relativePath) hash)
    eqn:Hc; simpl.
  - apply lookup_insert_eq.
  - pose proof (checkAndUpdate_false h relativePath hash Hp Hne) as [Hf _].
    apply Hf. rewrite checkAndUpdate_plain by exact Hp. now rewrite Hc.
Qed.

(** X20.  For a relative path other than [length] and [__proto__] and a
    fingerprint [newHash] (a hex digest, so not the empty string), the
    ledger test answers [true] exactly when nothing is stored for
    [relativePath] or what is stored differs from [newHash]; it then stores
    [newHash], and it leaves the ledger as it is when it answers [false];
    either way a second test with the same fingerprint answers [false]. *)
Theorem checkAndUpdate_spec (h : gmap string string) (relativePath newHash : string) :
  relativePath <> "length" -> relativePath <> "__proto__" ->
  newHash <> EmptyString ->
  (fst (checkAndUpdate h relativePath newHash) = true <->
     (h !! relativePath = None \/
      exists old, h !! relativePath = Some old /\ old <> newHash)) /\
  (fst (checkAndUpdate h relativePath newHash) = true ->
     snd (checkAndUpdate h relativePath newHash) = <[relativePath := newHash]> h) /\
  (fst (checkAndUpdate h relativePath newHash) = false ->
     snd (checkAndUpdate h relativePath newHash) = h) /\
  fst (checkAndUpdate (snd (checkAndUpdate h relativePath newHash)) relativePath newHash)
  = false.
Proof.
  intros _ Hp Hne. split; [| split; [| split]].
  - rewrite checkAndUpdate_plain by exact Hp. unfold truthy, strict_neq.
    destruct (h !! relativePath) as [old|] eqn:Hold; simpl.
    + destruct (String.eqb_spec old newHash) as [-> | Hdiff].
      * rewrite (eqb_empty_false _ Hne). simpl. split; [discriminate |].
        intros [H | (o & Ho & Hd)]; [discriminate | congruence].
      * rewrite orb_true_r. simpl. split; [| reflexivity].
        intros _. right. exists old. split; [reflexivity | assumption].
    + split; [| reflexivity]. intros _. now left.
  - rewrite checkAndUpdate_plain by exact Hp.
    destruct (negb _ || _); [reflexivity | discriminate].
  - rewrite checkAndUpdate_plain by exact Hp.
    destruct (negb _ || _); [discriminate | reflexivity].
  - now apply checkAndUpdate_twice.
Qed.

Lemma checkAndUpdate_spec_witness :
  fst (checkAndUpdate (<["/a.css" := digest_a]> ∅) "/a.css" digest_b) = true /\
  snd (checkAndUpdate (<["/a.css" := digest_a]> ∅) "/a.css" digest_b)
    = <["/a.css" := digest_b]> (<["/a.css" := digest_a]> ∅).
Proof.
  assert (Hl : "/a.css" <> "length") by discriminate.
  assert (Hp : "/a.css" <> "__proto__") by discriminate.
  assert (Hne : digest_b <> EmptyString) by discriminate.
  destruct (checkAndUpdate_spec (<["/a.css" := digest_a]> ∅) "/a.css" digest_b Hl Hp Hne)
    as (Hiff & Hset & _ & _).
  assert (Ht : fst (checkAndUpdate (<["/a.css" := digest_a]> ∅) "/a.css" digest_b) = true).
  { apply Hiff. right. exists digest_a. split; [reflexivity | discriminate]. }
  split; [exact Ht | exact (Hset Ht)].
Defined.

(** C1.  The ledger is an array, and two relative paths are properties
    the array has of its own.  A file named [__proto__] directly under a
    root written with its closing slash: the test reads the prototype of
    the array, which is no string, and the store is ignored, so the same
    bytes saved twice are a change both times and the file is sent twice.
    A file named [length]: the store assigns the length of the array, and
    the digest is no number, so the callback throws and the process
    dies. *)
Theorem ledger_fails_on_array_properties :
  getRelativePath (localPath cfg_slash) "/proj/src/__proto__" = "__proto__" /\
  fst (checkAndUpdate ∅ "__proto__" digest_a) = true /\
  fst (checkAndUpdate (snd (checkAndUpdate ∅ "__proto__" digest_a)) "__proto__" digest_a)
  = true /\
  (exists s log,
     run cfg_slash tr_proto init = Done s log /\
     armed_of log = [(0, 0%nat); (6000, 1%nat)] /\
     transfers_of log = [(5000, ("/proj/src/__proto__", "/var/www/app/__proto__"));
                         (11000, ("/proj/src/__proto__", "/var/www/app/__proto__"))] /\
     hashes s !! "__proto__" = None) /\
  getRelativePath (localPath cfg_slash) "/proj/src/length" = "length" /\
  step cfg_slash (StreamEnd 0 digest_a) (state_of (run cfg_slash (firstn 2 tr_length) init))
  = Uncaught [] "RangeError: Invalid array length" /\
  died_of (run cfg_slash tr_length init)
  = Some (StreamEnd 0 digest_a, "RangeError: Invalid array length").
Proof.
  split; [reflexivity |]. split; [reflexivity |]. split; [reflexivity |].
  split.
  { exists (state_of (run cfg_slash tr_proto init)), (log_of (run cfg_slash tr_proto init)).
    split; [vm_compute; reflexivity |]. split; [vm_compute; reflexivity |].
    split; vm_compute; reflexivity. }
  split; [reflexivity |]. split; vm_compute; reflexivity.
Qed.

(** ** The hash callback *)

Section Facts.

Variable cfg : config.

(** The hash callback returns for no file whose relative path is
    [length]. *)
Lemma on_hash_key (path hash : string) (s s' : state) (acts : list action) :
  on_hash cfg path hash s = Ok s' acts ->
  getRelativePath (localPath cfg) path <> "length".
Proof.
  unfold on_hash. intros H Heq. rewrite Heq in H. simpl in H.
  destruct (invalid_array_length hash); discriminate H.
Qed.

Lemma on_hash_plain (path hash : string) (s : state) :
  getRelativePath (localPath cfg) path <> "length" ->
  on_hash cfg path hash s
  = let relativePath := getRelativePath (localPath cfg) path in
    let '(changed, h) := checkAndUpdate (hashes s) relativePath hash in
    if changed then
      let s1 := set_hashes h s in
      if watcher_ready s1 then
        let '(s2, a2) := match timeout s1 with
                         | Some t => (clearTimeout t s1, [ClearTimeout t])
                         | None => (s1, [])
                         end in
        let a3 := [ConsoleInfo ("INFO :: file has changed " +:+ strip_directories path)] in
        let s3 := set_updates (obj_set path relativePath (updates s2)) s2 in
        let '(t, s4) := setTimeout window s3 in
        Ok (set_timeout (Some t) s4) (a2 ++ a3 ++ [SetTimeout t window])
      else Ok s1 []
    else Ok s [].
Proof.
  intros Hk. unfold on_hash.
  now destruct (String.eqb_spec (getRelativePath (localPath cfg) path) "length").
Qed.

Lemma on_hash_unchanged (path hash : string) (s : state) :
  getRelativePath (localPath cfg) path <> "length" ->
  fst (checkAndUpdate (hashes s) (getRelativePath (localPath cfg) path) hash) = false ->
  on_hash cfg path hash s = Ok s [].
Proof.
  intros Hk H. rewrite on_hash_plain by exact Hk. cbv zeta.
  destruct (checkAndUpdate _ _ _) as [changed h]. simpl in H. now subst changed.
Qed.

Lemma on_hash_baseline (path hash : string) (s : state) :
  getRelativePath (localPath cfg) path <> "length" ->
  fst (checkAndUpdate (hashes s) (getRelativePath (localPath cfg) path) hash) = true ->
  watcher_ready s = false ->
  on_hash cfg path hash s
  = Ok (set_hashes (snd (checkAndUpdate (hashes s) (getRelativePath (localPath cfg) path) hash))
          s) [].
Proof.
  intros Hk H Hr. rewrite on_hash_plain by exact Hk. cbv zeta.
  destruct (checkAndUpdate _ _ _) as [changed h]. simpl in *. subst changed.
  now rewrite Hr.
Qed.

Lemma on_hash_qualifying (path hash : string) (s : state) :
  getRelativePath (localPath cfg) path <> "length" ->
  fst (checkAndUpdate (hashes s) (getRelativePath (localPath cfg) path) hash) = true ->
  watcher_ready s = true ->
  exists s' acts,
    on_hash cfg path hash s = Ok s' acts /\
    hashes s' = snd (checkAndUpdate (hashes s) (getRelativePath (localPath cfg) path) hash) /\
    updates s' = obj_set path (getRelativePath (localPath cfg) path) (updates s) /\
    timers s' = (match timeout s with
                 | Some t => disarm t (timers s)
                 | None => timers s
                 end ++ [(next_timer s, now s + window)])%list /\
    timeout s' = Some (next_timer s) /\
    next_timer s' = S (next_timer s) /\
    fastPuts acts = [] /\ newClients acts = [] /\
    In (SetTimeout (next_timer s) window) acts /\
    watcher_ready s' = true /\ now s' = now s /\ streams s' = streams s /\
    next_stream s' = next_stream s /\ clients s' = clients s /\ conn s' = conn s /\
    sessions s' = sessions s /\ transfers s' = transfers s /\
    next_transfer s' = next_transfer s /\
    (forall t, timeout s = Some t -> In (ClearTimeout t) acts).
Proof.
  intros Hk H Hr. rewrite on_hash_plain by exact Hk. cbv zeta.
  destruct (checkAndUpdate _ _ _) as [changed h]. simpl in *. subst changed.
  rewrite Hr.
  destruct (timeout s) as [t|]; simpl; eexists _, _; (split; [reflexivity |]);
    simpl; repeat split; auto.
  - intros t0 [= <-]. now left.
  - intros t0 [=].
Qed.

(** What the hash callback may change, whatever the case. *)
Lemma on_hash_frame (path hash : string) (s s' : state) (acts : list action) :
  on_hash cfg path hash s = Ok s' acts ->
  hashes s' = snd (checkAndUpdate (hashes s) (getRelativePath (localPath cfg) path) hash) /\
  watcher_ready s' = watcher_ready s /\ now s' = now s /\ streams s' = streams s /\
  next_stream s' = next_stream s /\ clients s' = clients s /\ conn s' = conn s /\
  sessions s' = sessions s /\ transfers s' = transfers s /\
  next_transfer s' = next_transfer s /\ fastPuts acts = [] /\ newClients acts = [].
Proof.
  intros Hh. pose proof (on_hash_key _ _ _ _ _ Hh) as Hk. revert Hh.
  destruct (fst (checkAndUpdate (hashes s) (getRelativePath (localPath cfg) path) hash))
    eqn:Hc.
  - destruct (watcher_ready s) eqn:Hr.
    + destruct (on_hash_qualifying path hash s Hk Hc Hr) as (s1 & a1 & -> & H).
      intros [= <- <-]. intuition.
    + rewrite (on_hash_baseline path hash s Hk Hc Hr). intros [= <- <-].
      cbn. intuition.
  - rewrite (on_hash_unchanged path hash s Hk Hc). intros [= <- <-].
    unfold checkAndUpdate in *.
    destruct (String.eqb _ "__proto__"); [discriminate Hc |].
    destruct (negb _ || _); simpl in *; [discriminate |]. intuition.
Qed.

Lemma on_hash_total (path hash : string) (s : state) :
  getRelativePath (localPath cfg) path <> "length" ->
  exists s' acts, on_hash cfg path hash s = Ok s' acts.
Proof.
  intros Hk.
  destruct (fst (checkAndUpdate (hashes s) (getRelativePath (localPath cfg) path) hash))
    eqn:Hc.
  - destruct (watcher_ready s) eqn:Hr.
    + destruct (on_hash_qualifying path hash s Hk Hc Hr) as (s1 & a1 & -> & _). eauto.
    + rewrite (on_hash_baseline path hash s Hk Hc Hr). eauto.
  - rewrite (on_hash_unchanged path hash s Hk Hc). eauto.
Qed.

(** The shape of what the hash callback does, for the proofs that count
    actions. *)
Lemma on_hash_acts (path hash : string) (s s' : state) (acts : list action) :
  on_hash cfg path hash s = Ok s' acts ->
  acts = [] \/
  (exists msg, acts = [ConsoleInfo msg; SetTimeout (next_timer s) window]) \/
  (exists t msg, acts = [ClearTimeout t; ConsoleInfo msg; SetTimeout (next_timer s) window]).
Proof.
  intros Hh. pose proof (on_hash_key _ _ _ _ _ Hh) as Hk.
  rewrite on_hash_plain in Hh by exact Hk. cbv zeta in Hh.
  destruct (checkAndUpdate _ _ _) as [[] h].
  - cbn [watcher_ready set_hashes timeout] in Hh. destruct (watcher_ready s).
    + destruct (timeout s); cbn in Hh; injection Hh as _ <-; eauto.
    + injection Hh as _ <-. auto.
  - injection Hh as _ <-. auto.
Qed.

Lemma on_hash_flags (path hash : string) (s s' : state) (acts : list action) :
  on_hash cfg path hash s = Ok s' acts ->
  sftp_ready s' = sftp_ready s /\ watcher_ready s' = watcher_ready s.
Proof.
  intros Hh. pose proof (on_hash_key _ _ _ _ _ Hh) as Hk.
  rewrite on_hash_plain in Hh by exact Hk. cbv zeta in Hh.
  destruct (checkAndUpdate _ _ _) as [[] h].
  - cbn [watcher_ready set_hashes timeout] in Hh. destruct (watcher_ready s) eqn:Hr.
    + destruct (timeout s); cbn in Hh; injection Hh as <- _; cbn; auto.
    + injection Hh as <- _. cbn. auto.
  - injection Hh as <- _. auto.
Qed.

End Facts.

(** ** One step *)

Section Steps.

Variable cfg : config.

Lemma emit_stream_data : emit "data" stream_listeners = Some [L_stream_data].
Proof. reflexivity. Qed.

Lemma emit_stream_end : emit "end" stream_listeners = Some [L_stream_end].
Proof. reflexivity. Qed.

Lemma emit_stream_error : emit "error" stream_listeners = None.
Proof. reflexivity. Qed.

Lemma emit_client_ready : emit "ready" client_listeners = Some [L_conn_ready; L_conn_drain].
Proof. reflexivity. Qed.

Lemma emit_client_error : emit "error" client_listeners = Some [L_conn_error].
Proof. reflexivity. Qed.

Lemma bind_Ok (o : outcome) (k : state -> outcome) (s' : state) (acts : list action) :
  bind o k = Ok s' acts ->
  exists s1 a1 a2, o = Ok s1 a1 /\ k s1 = Ok s' a2 /\ acts = (a1 ++ a2)%list.
Proof.
  destruct o as [s1 a1| a1 e1 |]; simpl; [| discriminate | discriminate].
  destruct (k s1) as [s2 a2| a2 e2 |] eqn:Hk; [| discriminate | discriminate].
  intros [= <- <-]. eauto 6.
Qed.

Lemma new_client_lookup (l : list client) (cl : client) :
  (l ++ [cl])%list !! length l = Some cl.
Proof. now apply list_lookup_middle. Qed.

Lemma on_timeout_eq (s : state) :
  on_timeout cfg s
  = Ok (set_client (length (clients s)) fresh_client
          (set_conn (Some (length (clients s)))
             (set_clients (clients s ++ [{| attempts := 0; connected := false;
                                            c_on := [("ready", L_conn_ready);
                                                     ("error", L_conn_error)] |}]) s)))
       [NewClient (length (clients s)); Connect (length (clients s)) (sftp cfg)].
Proof.
  unfold on_timeout, connectToSFTPServer. cbn [clients set_conn set_clients].
  now rewrite new_client_lookup.
Qed.

Lemma on_timeout_clients (s s' : state) (acts : list action) :
  on_timeout cfg s = Ok s' acts ->
  clients s' = (clients s ++ [fresh_client])%list /\
  conn s' = Some (length (clients s)) /\
  acts = [NewClient (length (clients s)); Connect (length (clients s)) (sftp cfg)] /\
  hashes s' = hashes s /\ updates s' = updates s /\ timeout s' = timeout s /\
  timers s' = timers s /\ next_timer s' = next_timer s /\ now s' = now s /\
  watcher_ready s' = watcher_ready s /\ sftp_ready s' = sftp_ready s /\
  streams s' = streams s /\ next_stream s' = next_stream s /\
  sessions s' = sessions s /\ transfers s' = transfers s /\
  next_transfer s' = next_transfer s.
Proof.
  rewrite on_timeout_eq. intros [= <- <-]. cbn.
  repeat split; try reflexivity.
  rewrite insert_app_r_alt by reflexivity. now rewrite Nat.sub_diag.
Qed.

Lemma fastPuts_fastPut_all (t : nat) (u : list (string * string)) :
  fastPuts (fastPut_all cfg t u) = map (destination cfg) u.
Proof.
  revert t. induction u as [|[p r] u IH]; intros t; [reflexivity |].
  cbn. now rewrite <- (IH (S t)).
Qed.

Lemma newClients_fastPut_all (t : nat) (u : list (string * string)) :
  newClients (fastPut_all cfg t u) = [].
Proof.
  revert t. induction u as [|[p r] u IH]; intros t; [reflexivity |].
  cbn. apply (IH (S t)).
Qed.

Lemma set_client_twice (c : nat) (x y : client) (b : bool) (s : state) :
  set_client c x (set_sftp_ready b (set_client c y s)) = set_client c x (set_sftp_ready b s).
Proof.
  unfold set_client, set_clients, set_sftp_ready. cbn.
  now rewrite list_insert_insert_eq.
Qed.

(** Every step of a well-formed state, spelled out. *)
Lemma step_cases (e : event) (s s' : state) (acts : list action) :
  inv cfg s ->
  step cfg e s = Ok s' acts ->
  match e with
  | Elapse ms => 0 <= ms /\ s' = set_now (now s + ms) s /\ acts = []
  | WatcherReady => s' = set_watcher_ready true s /\ fastPuts acts = [] /\ newClients acts = []
  | WatcherAll ev path =>
      (s' = s /\ acts = []) \/
      (s' = set_streams (<[next_stream s := {| s_path := path; s_on := stream_listeners |}]>
                           (streams s)) (S (next_stream s)) s /\
       acts = [ReadStream (next_stream s) path])
  | StreamData id chunk => s' = s /\ acts = []
  | StreamEnd id digest =>
      exists st s1, streams s !! id = Some st /\
        on_hash cfg (s_path st) digest s = Ok s1 acts /\
        s' = set_streams (delete id (streams s1)) (next_stream s1) s1
  | StreamError id err => False
  | TimerFire id =>
      exists due, (id, due) ∈ timers s /\ due <= now s /\
        on_timeout cfg (set_timers (disarm id (timers s)) (next_timer s) s) = Ok s' acts
  | ConnReady c =>
      exists cl g, clients s !! c = Some cl /\ connected cl = false /\ conn s = Some g /\
        s' = set_sessions (sessions s ++ [g])
               (set_client c {| attempts := 0; connected := true; c_on := c_on cl |}
                  (set_sftp_ready true s)) /\
        acts = [SftpOpen g]
  | ConnError c err =>
      exists cl, clients s !! c = Some cl /\
        s' = set_client c {| attempts := S (attempts cl); connected := false;
                             c_on := c_on cl |} (set_sftp_ready false s) /\
        acts = [StdoutWrite (retry_line (attempts cl)); Connect c (sftp cfg)]
  | SftpCallback c err =>
      c ∈ sessions s /\ (err = None \/ updates s = []) /\
      s' = set_updates []
             (set_transfers (transfers s ++ seq (next_transfer s) (length (updates s)))
                (next_transfer s + length (updates s))%nat
                (set_sessions (remove_first c (sessions s)) s)) /\
      fastPuts acts = map (destination cfg) (updates s) /\ newClients acts = []
  | FastPutCallback t err =>
      t ∈ transfers s /\
      s' = set_transfers (remove_first t (transfers s)) (next_transfer s) s /\
      acts = match err with Some x => [ConsoleError x] | None => [] end
  end.
Proof.
  intros Hinv Hstep. destruct e; simpl in Hstep.
  - destruct (Z.leb_spec 0 ms); [| discriminate].
    injection Hstep as <- <-. auto.
  - injection Hstep as <- <-. auto.
  - unfold on_all in Hstep. destruct (existsb _ _).
    + injection Hstep as <- <-. right. auto.
    + injection Hstep as <- <-. left. auto.
  - unfold stream_emit in Hstep. destruct (streams s !! id) as [st|] eqn:Hst; [| discriminate].
    unfold emit_on in Hstep. rewrite (inv_streams _ _ Hinv _ _ Hst), emit_stream_data in Hstep.
    simpl in Hstep. injection Hstep as <- <-. auto.
  - apply bind_Ok in Hstep as (s1 & a1 & a2 & H1 & H2 & ->).
    unfold stream_emit in H1. destruct (streams s !! id) as [st|] eqn:Hst; [| discriminate].
    unfold emit_on in H1. rewrite (inv_streams _ _ Hinv _ _ Hst), emit_stream_end in H1.
    simpl in H1. rewrite Hst in H1.
    destruct (on_hash cfg (s_path st) digest s) as [s2 a3| a3 e3 |] eqn:Hh; simpl in H1;
      [| discriminate | discriminate].
    injection H1 as <- <-. injection H2 as <- <-.
    exists st, s2. rewrite !app_nil_r. auto.
  - apply bind_Ok in Hstep as (s1 & a1 & a2 & H1 & H2 & ->).
    unfold stream_emit in H1. destruct (streams s !! id) as [st|] eqn:Hst; [| discriminate].
    unfold emit_on in H1. rewrite (inv_streams _ _ Hinv _ _ Hst), emit_stream_error in H1.
    discriminate.
  - destruct (list_find _ _) as [[i [id' due]]|] eqn:Hf; [| discriminate].
    apply list_find_Some in Hf as (Hi & Hid & _). simpl in Hid. subst id'.
    destruct (Z.leb_spec due (now s)); [| discriminate].
    exists due. split; [| auto]. eapply list_elem_of_lookup_2; eauto.
  - destruct (clients s !! c) as [cl|] eqn:Hcl; [| discriminate].
    destruct (connected cl) eqn:Hconn; [discriminate |].
    pose proof (lookup_lt_Some _ _ _ Hcl) as Hlt.
    unfold client_emit, set_connected in Hstep. rewrite Hcl in Hstep.
    cbn [clients set_client set_clients] in Hstep.
    rewrite list_lookup_insert_eq in Hstep by exact Hlt.
    unfold emit_on in Hstep. cbn [c_on] in Hstep.
    rewrite (inv_clients _ _ Hinv _ _ Hcl), emit_client_ready in Hstep.
    cbn [run_listeners run_listener clients set_client set_clients] in Hstep.
    rewrite list_lookup_insert_eq in Hstep by exact Hlt.
    cbn [bind run_listeners run_listener conn set_client set_clients set_sftp_ready
         clients attempts connected c_on] in Hstep.
    rewrite list_insert_insert_eq in Hstep.
    destruct (conn s) as [g|] eqn:Hg; [| discriminate].
    destruct (<[c:=_]> (clients s) !! g) as [gl|] eqn:Hgl; [| discriminate].
    destruct (connected gl); [| discriminate].
    cbn in Hstep. injection Hstep as <- <-.
    exists cl, g. rewrite (inv_clients _ _ Hinv _ _ Hcl). repeat split; auto.
    now rewrite set_client_twice.
  - unfold client_emit, set_connected in Hstep.
    destruct (clients s !! c) as [cl|] eqn:Hcl.
    + pose proof (lookup_lt_Some _ _ _ Hcl) as Hlt.
      cbn [clients set_client set_clients] in Hstep.
      rewrite list_lookup_insert_eq in Hstep by exact Hlt.
      unfold emit_on in Hstep. cbn [c_on] in Hstep.
      rewrite (inv_clients _ _ Hinv _ _ Hcl), emit_client_error in Hstep.
      cbn [run_listeners run_listener clients set_client set_clients] in Hstep.
      rewrite list_lookup_insert_eq in Hstep by exact Hlt.
      cbn [bind run_listeners run_listener conn set_client set_clients set_sftp_ready
           clients attempts connected c_on] in Hstep.
      cbn in Hstep. injection Hstep as <- <-.
      exists cl. rewrite (inv_clients _ _ Hinv _ _ Hcl). repeat split; auto.
      now rewrite set_client_twice.
    + rewrite Hcl in Hstep. discriminate.
  - destruct (bool_decide (c ∈ sessions s)) eqn:Hc; [| discriminate].
    apply bool_decide_eq_true in Hc. split; [exact Hc |].
    unfold on_sftp in Hstep. cbn [updates set_sessions transfers next_transfer] in Hstep.
    destruct (obj_has "hasOwnProperty" (updates s)); [discriminate |].
    destruct err as [x|].
    + destruct (updates s) as [|u0 us] eqn:Hu; [| discriminate].
      injection Hstep as <- <-. repeat split; auto.
    + injection Hstep as <- <-. repeat split; auto.
      * cbn [app]. unfold fastPuts. cbn [omap is_fastPut list_omap]. rewrite omap_app.
        fold (fastPuts (fastPut_all cfg (next_transfer s) (updates s))).
        rewrite fastPuts_fastPut_all. cbn. now rewrite app_nil_r.
      * cbn [app]. unfold newClients. cbn [omap is_newClient list_omap]. rewrite omap_app.
        fold (newClients (fastPut_all cfg (next_transfer s) (updates s))).
        rewrite newClients_fastPut_all. reflexivity.
  - destruct (bool_decide (t ∈ transfers s)) eqn:Ht; [| discriminate].
    apply bool_decide_eq_true in Ht. split; [exact Ht |].
    destruct err; simpl in Hstep; injection Hstep as <- <-; auto.
Qed.

(** The end of a stream runs the callback of [getHash] with the digest and
    closes the stream. *)
Lemma step_streamEnd (s : state) (id : nat) (st : stream) (digest : string) :
  inv cfg s -> streams s !! id = Some st ->
  step cfg (StreamEnd id digest) s
  = bind (on_hash cfg (s_path st) digest s) (close_stream id).
Proof.
  intros Hinv Hst. simpl. unfold stream_emit. rewrite Hst. unfold emit_on.
  rewrite (inv_streams _ _ Hinv _ _ Hst), emit_stream_end. simpl. rewrite Hst.
  destruct (on_hash cfg (s_path st) digest s) as [s1 a1| a1 e1 |]; simpl;
    [now rewrite app_nil_r | reflexivity | reflexivity].
Qed.

Lemma step_streamData (s : state) (id : nat) (st : stream) (chunk : string) :
  inv cfg s -> streams s !! id = Some st ->
  step cfg (StreamData id chunk) s = Ok s [].
Proof.
  intros Hinv Hst. simpl. unfold stream_emit. rewrite Hst. unfold emit_on.
  now rewrite (inv_streams _ _ Hinv _ _ Hst), emit_stream_data.
Qed.

Lemma step_streamError (s : state) (id : nat) (st : stream) (err : string) :
  inv cfg s -> streams s !! id = Some st ->
  step cfg (StreamError id err) s = Uncaught [] ("Unhandled 'error' event: " +:+ err).
Proof.
  intros Hinv Hst. simpl. unfold stream_emit. rewrite Hst. unfold emit_on.
  now rewrite (inv_streams _ _ Hinv _ _ Hst), emit_stream_error.
Qed.

End Steps.

(** ** Well-formed states *)

Section Invariant.

Variable cfg : config.

Lemma inv_init : inv cfg init.
Proof.
  constructor; simpl.
  - intros id st H. now rewrite lookup_empty in H.
  - intros c cl H. now rewrite lookup_nil in H.
  - intros t H. now apply elem_of_nil in H.
  - intros p rel H. now apply elem_of_nil in H.
  - intros k [v H]. now rewrite lookup_empty in H.
Qed.

Lemma obj_has_spec (k : string) (o : list (string * string)) :
  obj_has k o = true <-> k ∈ obj_keys o.
Proof.
  unfold obj_has. rewrite existsb_exists. split.
  - intros (x & Hin & Hx). apply String.eqb_eq in Hx. subst x. now apply list_elem_of_In.
  - intros H. exists k. split; [now apply list_elem_of_In | apply String.eqb_refl].
Qed.

Lemma obj_replace_perm (k v : string) (o : list (string * string)) :
  k ∈ obj_keys o -> exists v' o', o ≡ₚ (k, v') :: o' /\ obj_replace k v o ≡ₚ (k, v) :: o'.
Proof.
  unfold obj_keys. induction o as [|[k' v'] o IH]; simpl.
  - intros H. now apply elem_of_nil in H.
  - destruct (String.eqb_spec k' k) as [-> | Hne].
    + intros _. exists v', o. split; reflexivity.
    + intros H. apply elem_of_cons in H as [-> | H]; [congruence |].
      destruct (IH H) as (w & o' & Ho & Hr). exists w, ((k', v') :: o').
      split; [rewrite Ho | rewrite Hr]; apply Permutation_swap.
Qed.

Lemma obj_replace_keys (k v : string) (o : list (string * string)) :
  obj_keys (obj_replace k v o) = obj_keys o.
Proof.
  unfold obj_keys. induction o as [|[k' v'] o IH]; simpl; [reflexivity |].
  destruct (String.eqb_spec k' k) as [-> | Hne]; simpl; [reflexivity | now rewrite IH].
Qed.

Lemma obj_insert_index_perm (n : N) (k v : string) (o : list (string * string)) :
  obj_insert_index n k v o ≡ₚ (k, v) :: o.
Proof.
  induction o as [|[k' v'] o IH]; simpl; [reflexivity |].
  destruct (array_index k') as [m|]; [| reflexivity].
  destruct (m <? n)%N; [| reflexivity].
  rewrite IH. apply Permutation_swap.
Qed.

(** The properties of an object after an assignment, up to their order. *)
Lemma obj_set_perm (k v : string) (o : list (string * string)) :
  obj_set k v o = o \/
  (k <> "__proto__" /\ k ∈ obj_keys o /\ obj_keys (obj_set k v o) = obj_keys o /\
   exists v' o', o ≡ₚ (k, v') :: o' /\ obj_set k v o ≡ₚ (k, v) :: o') \/
  (k <> "__proto__" /\ ~ k ∈ obj_keys o /\ obj_set k v o ≡ₚ (k, v) :: o).
Proof.
  unfold obj_set. destruct (String.eqb_spec k "__proto__") as [-> | Hp]; [now left |].
  right. destruct (obj_has k o) eqn:Hhas.
  - apply obj_has_spec in Hhas. left. split; [exact Hp |]. split; [exact Hhas |].
    split; [apply obj_replace_keys | now apply obj_replace_perm].
  - right. split; [exact Hp |]. split.
    + intros H. apply obj_has_spec in H. congruence.
    + destruct (array_index k) as [n|]; [apply obj_insert_index_perm |].
      symmetry. apply Permutation_cons_append.
Qed.

Lemma obj_set_elem (k v : string) (o : list (string * string)) (x : string * string) :
  x ∈ obj_set k v o -> x = (k, v) \/ x ∈ o.
Proof.
  destruct (obj_set_perm k v o) as [-> | [(_ & _ & _ & v' & o' & Ho & Hs) | (_ & _ & Hs)]].
  - now right.
  - rewrite Hs, Ho. intros H. apply elem_of_cons in H as [H | H]; [now left |].
    right. apply elem_of_cons. now right.
  - rewrite Hs. intros H. apply elem_of_cons in H as [H | H]; auto.
Qed.

Lemma disarm_elem (id : nat) (ts : list (nat * Z)) (t : nat * Z) :
  t ∈ disarm id ts <-> fst t <> id /\ t ∈ ts.
Proof. unfold disarm. apply (list_elem_of_filter (fun t => fst t <> id)). Qed.

(** Cancelling the timer the script remembers leaves no timer armed. *)
Lemma inv_cancel (s : state) :
  inv cfg s ->
  match timeout s with
  | Some t => disarm t (timers s)
  | None => timers s
  end = [].
Proof.
  intros Hinv. destruct (timeout s) as [t0|] eqn:Ht.
  - apply elem_of_nil_inv. intros t H. apply disarm_elem in H as [Hne Hin].
    pose proof (inv_timers _ _ Hinv _ Hin) as H. congruence.
  - apply elem_of_nil_inv. intros t Hin.
    pose proof (inv_timers _ _ Hinv _ Hin) as H. congruence.
Qed.

Lemma step_inv (e : event) (s s' : state) (acts : list action) :
  inv cfg s -> step cfg e s = Ok s' acts -> inv cfg s'.
Proof.
  intros Hinv Hstep. pose proof (step_cases cfg e s s' acts Hinv Hstep) as H.
  destruct Hinv as [Hs Hc Ht Hu Hl].
  destruct e.
  - destruct H as (_ & -> & _). constructor; assumption.
  - destruct H as (-> & _). constructor; assumption.
  - destruct H as [[-> _] | [-> _]]; constructor; try assumption.
    cbn. intros id st H. apply lookup_insert_Some in H as [[_ <-] | [_ H]]; eauto.
  - destruct H as (-> & _). constructor; assumption.
  - destruct H as (st & s1 & Hst & Hh & ->).
    assert (Hinv : inv cfg s) by (constructor; assumption).
    pose proof (on_hash_key cfg _ _ _ _ _ Hh) as Hk.
    assert (Hl1 : forall k, is_Some (hashes s1 !! k) -> k <> "length" /\ k <> "__proto__").
    { pose proof (on_hash_frame cfg _ _ _ _ _ Hh) as (Hhs & _). rewrite Hhs.
      destruct (checkAndUpdate_snd (hashes s)
                  (getRelativePath (localPath cfg) (s_path st)) digest) as [-> | [Hp ->]];
        [exact Hl |].
      intros k Hsome. apply lookup_insert_is_Some in Hsome as [<- | [_ Hsome]]; auto. }
    destruct (fst (checkAndUpdate (hashes s)
                     (getRelativePath (localPath cfg) (s_path st)) digest)) eqn:Hchk.
    + destruct (watcher_ready s) eqn:Hr.
      * destruct (on_hash_qualifying cfg _ _ s Hk Hchk Hr)
          as (s2 & a2 & Heq & _ & Hup & Htm & Hto & _ & _ & _ & _ & _ & _ & Hstr & _ & Hcl & _).
        rewrite Heq in Hh. injection Hh as <- <-.
        constructor; cbn.
        -- intros id' st' H. apply lookup_delete_Some in H as [_ H].
           rewrite Hstr in H. eauto.
        -- rewrite Hcl. assumption.
        -- rewrite Htm, Hto, (inv_cancel s Hinv). cbn. intros t H.
           apply list_elem_of_singleton in H. now subst t.
        -- rewrite Hup. intros p rel H. apply obj_set_elem in H as [[= -> ->] | H]; eauto.
        -- exact Hl1.
      * rewrite (on_hash_baseline cfg _ _ s Hk Hchk Hr) in Hh. injection Hh as <- <-.
        constructor; cbn; try assumption.
        intros id' st' H. apply lookup_delete_Some in H as [_ H]. eauto.
    + rewrite (on_hash_unchanged cfg _ _ s Hk Hchk) in Hh. injection Hh as <- <-.
      constructor; cbn; try assumption.
      intros id' st' H. apply lookup_delete_Some in H as [_ H]. eauto.
  - contradiction.
  - destruct H as (due & _ & _ & H).
    apply on_timeout_clients in H
      as (Hcl & _ & _ & Hhs & Hup & Hto & Htm & _ & _ & _ & _ & Hstr & _).
    cbn in *. constructor.
    + rewrite Hstr. assumption.
    + rewrite Hcl. intros c cl H. apply lookup_app_Some in H as [H | [_ H]]; [eauto |].
      apply list_lookup_singleton_Some in H as [_ <-]. reflexivity.
    + rewrite Htm, Hto. intros t H. apply disarm_elem in H as [_ H]. auto.
    + rewrite Hup. assumption.
    + rewrite Hhs. assumption.
  - destruct H as (cl & g & Hcl & _ & _ & -> & _). constructor; cbn; try assumption.
    intros c' cl' H. apply list_lookup_insert_Some in H as [(_ & <- & _) | [_ H]]; cbn; eauto.
  - destruct H as (cl & Hcl & -> & _). constructor; cbn; try assumption.
    intros c' cl' H. apply list_lookup_insert_Some in H as [(_ & <- & _) | [_ H]]; cbn; eauto.
  - destruct H as (_ & _ & -> & _). constructor; cbn; try assumption.
    intros p rel H. now apply elem_of_nil in H.
  - destruct H as (_ & -> & _). constructor; assumption.
Qed.

End Invariant.

(** ** Runs *)

Section Runs.

Variable cfg : config.

Lemma run_cons (e : event) (tr : list event) (s s' : state)
    (log : list (Z * event * list action)) :
  run cfg (e :: tr) s = Done s' log ->
  exists s1 acts log1,
    step cfg e s = Ok s1 acts /\ run cfg tr s1 = Done s' log1 /\
    log = (now s, e, acts) :: log1.
Proof.
  simpl. destruct (step cfg e s) as [s1 acts| acts err |]; [| discriminate | discriminate].
  destruct (run cfg tr s1) as [s2 log1| |] eqn:Hr; [| discriminate | discriminate].
  intros [= <- <-]. exists s1, acts, log1. auto.
Qed.

Lemma run_step (e : event) (tr : list event) (s s1 s' : state) (acts : list action)
    (log : list (Z * event * list action)) :
  step cfg e s = Ok s1 acts -> run cfg tr s1 = Done s' log ->
  run cfg (e :: tr) s = Done s' ((now s, e, acts) :: log).
Proof. intros H1 H2. simpl. now rewrite H1, H2. Qed.

Lemma run_app (tr1 tr2 : list event) (s s1 s2 : state)
    (log1 log2 : list (Z * event * list action)) :
  run cfg tr1 s = Done s1 log1 -> run cfg tr2 s1 = Done s2 log2 ->
  run cfg (tr1 ++ tr2) s = Done s2 (log1 ++ log2).
Proof.
  revert s log1. induction tr1 as [|e tr1 IH]; intros s log1 H1 H2.
  - injection H1 as <- <-. exact H2.
  - apply run_cons in H1 as (s' & acts & l & Hs & Hr & ->).
    rewrite <- app_comm_cons. simpl app. apply run_step with s'; [exact Hs |].
    now apply IH.
Qed.

(** Induction along a run: a property of states kept by every step, and
    what it tells about each entry of the log. *)
Lemma run_ind (P : state -> Prop) (Q : Z -> event -> list action -> Prop) :
  (forall e s s' acts, P s -> step cfg e s = Ok s' acts -> P s' /\ Q (now s) e acts) ->
  forall tr s s' log,
    P s -> run cfg tr s = Done s' log ->
    P s' /\ Forall (fun x => Q (fst (fst x)) (snd (fst x)) (snd x)) log.
Proof.
  intros Hstep tr. induction tr as [|e tr IH]; intros s s' log HP Hrun.
  - injection Hrun as <- <-. split; [exact HP | constructor].
  - apply run_cons in Hrun as (s1 & acts & log1 & Hs & Hr & ->).
    destruct (Hstep e s s1 acts HP Hs) as [HP1 HQ].
    destruct (IH s1 s' log1 HP1 Hr) as [HP' HF].
    split; [exact HP' | constructor; [exact HQ | exact HF]].
Qed.

Lemma run_inv (tr : list event) (s s' : state) (log : list (Z * event * list action)) :
  inv cfg s -> run cfg tr s = Done s' log -> inv cfg s'.
Proof.
  intros Hinv Hrun.
  apply (run_ind (inv cfg) (fun _ _ _ => True)) with (tr := tr) (s := s) (s' := s') (log := log);
    auto.
  intros e s0 s1 acts H0 H1. split; [now apply step_inv with e s0 acts | exact I].
Qed.

Lemma reachable_inv (s : state) : reachable cfg s -> inv cfg s.
Proof. intros (tr & log & H). eapply run_inv; [apply inv_init | exact H]. Qed.

Lemma reachable_init : reachable cfg init.
Proof. exists [], []. reflexivity. Qed.

Lemma reachable_run (tr : list event) (s s' : state) (log : list (Z * event * list action)) :
  reachable cfg s -> run cfg tr s = Done s' log -> reachable cfg s'.
Proof.
  intros (tr0 & log0 & H0) H. exists (tr0 ++ tr)%list, (log0 ++ log)%list.
  now apply run_app with s.
Qed.

Lemma reachable_step (e : event) (s s' : state) (acts : list action) :
  reachable cfg s -> step cfg e s = Ok s' acts -> reachable cfg s'.
Proof.
  intros Hr Hs. apply (reachable_run [e] s s' [(now s, e, acts)] Hr).
  simpl. now rewrite Hs.
Qed.

Lemma elem_of_actions_of (log : list (Z * event * list action)) (t : Z) (a : action) :
  (t, a) ∈ actions_of log ->
  exists e acts, (t, e, acts) ∈ log /\ a ∈ acts.
Proof.
  induction log as [|[[t' e] acts] log IH]; simpl; intros H.
  - now apply elem_of_nil in H.
  - apply elem_of_app in H as [H | H].
    + apply list_elem_of_In, in_map_iff in H as (a' & [= -> ->] & Ha).
      exists e, acts. split; [apply elem_of_cons; now left | now apply list_elem_of_In].
    + destruct (IH H) as (e0 & acts0 & Hin & Ha). exists e0, acts0.
      split; [apply elem_of_cons; now right | exact Ha].
Qed.

Lemma elem_of_fastPuts (acts : list action) (t : nat) (l r : string) :
  FastPut t l r ∈ acts -> (l, r) ∈ fastPuts acts.
Proof.
  intros H. unfold fastPuts. apply list_elem_of_omap. exists (FastPut t l r). auto.
Qed.

Lemma obj_keys_perm (o o' : list (string * string)) :
  o ≡ₚ o' -> obj_keys o ≡ₚ obj_keys o'.
Proof. unfold obj_keys. apply Permutation_map. Qed.

Lemma obj_set_keys (k v : string) (o : list (string * string)) (p : string) :
  p ∈ obj_keys o -> p ∈ obj_keys (obj_set k v o).
Proof.
  destruct (obj_set_perm k v o) as [-> | [(_ & _ & -> & _) | (_ & _ & Hs)]]; [auto .. |].
  rewrite (obj_keys_perm _ _ Hs). intros H. apply elem_of_cons. now right.
Qed.

Lemma obj_set_has (k v : string) (o : list (string * string)) :
  k <> "__proto__" -> (k, v) ∈ obj_set k v o.
Proof.
  intros Hp. unfold obj_set. destruct (String.eqb_spec k "__proto__"); [congruence |].
  destruct (obj_set_perm k v o) as [H | [(_ & _ & _ & v' & o' & _ & Hs) | (_ & _ & Hs)]].
  - unfold obj_set in H. destruct (String.eqb_spec k "__proto__"); [congruence |].
    destruct (obj_has k o) eqn:Hhas.
    + apply obj_has_spec in Hhas. destruct (obj_replace_perm k v o Hhas) as (w & o' & _ & Hr).
      rewrite Hr. apply elem_of_cons. now left.
    + destruct (array_index k) as [m|].
      * rewrite obj_insert_index_perm. apply elem_of_cons. now left.
      * apply elem_of_app. right. now apply list_elem_of_singleton.
  - unfold obj_set in Hs. destruct (String.eqb_spec k "__proto__"); [congruence |].
    rewrite Hs. apply elem_of_cons. now left.
  - unfold obj_set in Hs. destruct (String.eqb_spec k "__proto__"); [congruence |].
    rewrite Hs. apply elem_of_cons. now left.
Qed.

(** The batch and the transfers, step by step: a drain hands over every
    entry and leaves an empty batch; any other callback starts no transfer
    and drops no entry. *)
Lemma step_batch (e : event) (s s' : state) (acts : list action) :
  inv cfg s -> step cfg e s = Ok s' acts ->
  if is_sftpCallback e
  then fastPuts acts = map (destination cfg) (updates s) /\ updates s' = []
  else fastPuts acts = [] /\
       forall p, p ∈ obj_keys (updates s) -> p ∈ obj_keys (updates s').
Proof.
  intros Hinv Hstep. pose proof (step_cases cfg e s s' acts Hinv Hstep) as H.
  destruct e; cbn [is_sftpCallback].
  - destruct H as (_ & -> & ->). auto.
  - destruct H as (-> & ? & _). auto.
  - destruct H as [[-> ->] | [-> ->]]; auto.
  - destruct H as (-> & ->). auto.
  - destruct H as (st & s1 & Hst & Hh & ->). cbn.
    pose proof (on_hash_key cfg _ _ _ _ _ Hh) as Hk.
    destruct (fst (checkAndUpdate (hashes s)
                     (getRelativePath (localPath cfg) (s_path st)) digest)) eqn:Hchk.
    + destruct (watcher_ready s) eqn:Hr.
      * destruct (on_hash_qualifying cfg _ _ s Hk Hchk Hr)
          as (s2 & a2 & Heq & _ & Hup & _ & _ & _ & Hfp & _).
        rewrite Heq in Hh. injection Hh as <- <-. split; [exact Hfp |].
        rewrite Hup. intros p. apply obj_set_keys.
      * rewrite (on_hash_baseline cfg _ _ s Hk Hchk Hr) in Hh. injection Hh as <- <-. auto.
    + rewrite (on_hash_unchanged cfg _ _ s Hk Hchk) in Hh. injection Hh as <- <-. auto.
  - contradiction.
  - destruct H as (due & _ & _ & H).
    apply on_timeout_clients in H as (_ & _ & -> & _ & Hup & _). cbn in Hup.
    rewrite Hup. auto.
  - destruct H as (cl & g & _ & _ & _ & -> & ->). auto.
  - destruct H as (cl & _ & -> & ->). auto.
  - destruct H as (_ & _ & -> & Hfp & _). auto.
  - destruct H as (_ & -> & ->). destruct err; auto.
Qed.

(** The ledger is written by the hash callback only. *)
Lemma step_ledger (e : event) (s s' : state) (acts : list action) :
  inv cfg s -> step cfg e s = Ok s' acts -> is_streamEnd e = false ->
  hashes s' = hashes s.
Proof.
  intros Hinv Hstep He. pose proof (step_cases cfg e s s' acts Hinv Hstep) as H.
  destruct e; try discriminate He.
  - destruct H as (_ & -> & _). reflexivity.
  - destruct H as (-> & _). reflexivity.
  - destruct H as [[-> _] | [-> _]]; reflexivity.
  - destruct H as (-> & _). reflexivity.
  - contradiction.
  - destruct H as (due & _ & _ & H).
    apply on_timeout_clients in H as (_ & _ & _ & Hh & _). exact Hh.
  - destruct H as (cl & g & _ & _ & _ & -> & _). reflexivity.
  - destruct H as (cl & _ & -> & _). reflexivity.
  - destruct H as (_ & _ & -> & _). reflexivity.
  - destruct H as (_ & -> & _). reflexivity.
Qed.

(** A [Client] is constructed by the timer callback, and only there. *)
Lemma step_clients (e : event) (s s' : state) (acts : list action) :
  inv cfg s -> step cfg e s = Ok s' acts ->
  if is_timerFire e
  then clients s' = (clients s ++ [fresh_client])%list /\
       newClients acts = [length (clients s)] /\
       conn s' = Some (length (clients s))
  else length (clients s') = length (clients s) /\ newClients acts = [] /\
       conn s' = conn s.
Proof.
  intros Hinv Hstep. pose proof (step_cases cfg e s s' acts Hinv Hstep) as H.
  destruct e; cbn [is_timerFire].
  - destruct H as (_ & -> & ->). auto.
  - destruct H as (-> & _ & ?). auto.
  - destruct H as [[-> ->] | [-> ->]]; auto.
  - destruct H as (-> & ->). auto.
  - destruct H as (st & s1 & Hst & Hh & ->). cbn.
    apply on_hash_frame in Hh as (_ & _ & _ & _ & _ & -> & -> & _ & _ & _ & _ & ->). auto.
  - contradiction.
  - destruct H as (due & _ & _ & H).
    apply on_timeout_clients in H as (Hcl & Hconn & -> & _). cbn in *. auto.
  - destruct H as (cl & g & _ & _ & _ & -> & ->). cbn. rewrite length_insert. auto.
  - destruct H as (cl & _ & -> & ->). cbn. rewrite length_insert. auto.
  - destruct H as (_ & _ & -> & _ & ?). auto.
  - destruct H as (_ & -> & ->). destruct err; auto.
Qed.

End Runs.

(** ** The batch *)

Lemma obj_keys_destination (cfg : config) (u : list (string * string)) :
  map fst (map (destination cfg) u) = obj_keys u.
Proof. unfold obj_keys. rewrite map_map. reflexivity. Qed.

(** X18.  In every callback that returns, the batch is emptied in the very
    callback that hands it over, and callbacks do not interleave.  In a
    drain (the callback of [conn.sftp]) one transfer is started for every
    entry of [updates], in order, and [updates] is empty afterwards.  No
    other callback starts a transfer or drops an entry, and a qualifying
    change of a path other than [__proto__] puts the path into the batch
    that is pending then.  So across any such step an entry is either
    still in the batch or handed over, never both and never neither. *)
Theorem batch_swap (cfg : config) (e : event) (s s' : state) (acts : list action) :
  reachable cfg s ->
  step cfg e s = Ok s' acts ->
  (is_sftpCallback e = true ->
     fastPuts acts = map (destination cfg) (updates s) /\ updates s' = []) /\
  (is_sftpCallback e = false ->
     fastPuts acts = [] /\
     forall p, p ∈ obj_keys (updates s) -> p ∈ obj_keys (updates s')) /\
  (forall id digest st,
     e = StreamEnd id digest -> streams s !! id = Some st ->
     qualifying cfg s id digest = true -> s_path st <> "__proto__" ->
     s_path st ∈ obj_keys (updates s')) /\
  (forall p, p ∈ obj_keys (updates s) ->
     (p ∈ obj_keys (updates s') /\ ~ p ∈ map fst (fastPuts acts)) \/
     (~ p ∈ obj_keys (updates s') /\ p ∈ map fst (fastPuts acts))).
Proof.
  intros Hreach Hstep. pose proof (reachable_inv cfg s Hreach) as Hinv.
  pose proof (step_batch cfg e s s' acts Hinv Hstep) as Hb.
  split; [| split; [| split]].
  - intros He. now rewrite He in Hb.
  - intros He. now rewrite He in Hb.
  - intros id digest st -> Hst Hq Hp.
    pose proof (step_cases cfg _ s s' acts Hinv Hstep) as (st' & s1 & Hst' & Hh & ->).
    rewrite Hst in Hst'. injection Hst' as <-.
    pose proof (on_hash_key cfg _ _ _ _ _ Hh) as Hk.
    unfold qualifying in Hq. rewrite Hst in Hq. apply andb_prop in Hq as [Hchk Hr].
    destruct (on_hash_qualifying cfg _ _ s Hk Hchk Hr) as (s2 & a2 & Heq & _ & Hup & _).
    rewrite Heq in Hh. injection Hh as <- <-. cbn. rewrite Hup.
    unfold obj_keys. apply list_elem_of_In, in_map_iff.
    exists (s_path st, getRelativePath (localPath cfg) (s_path st)).
    split; [reflexivity |]. apply list_elem_of_In, obj_set_has. exact Hp.
  - intros p Hp. destruct (is_sftpCallback e).
    + destruct Hb as [Hfp Hup]. right. rewrite Hup, Hfp, obj_keys_destination.
      split; [apply not_elem_of_nil | exact Hp].
    + destruct Hb as [Hfp Hkeep]. left. rewrite Hfp.
      split; [now apply Hkeep | apply not_elem_of_nil].
Qed.

Lemma batch_swap_witness :
  exists s' acts,
    step cfg0 (SftpCallback 0 None) (state_of (run cfg0 tr_pending init)) = Ok s' acts /\
    fastPuts acts = [("/proj/src/a.css", "/var/www/app/a.css");
                     ("/proj/src/b.css", "/var/www/app/b.css");
                     ("/proj/src/c.css", "/var/www/app/c.css")] /\
    updates s' = [].
Proof.
  assert (Hreach : reachable cfg0 (state_of (run cfg0 tr_pending init))).
  { exists tr_pending, (log_of (run cfg0 tr_pending init)). vm_compute. reflexivity. }
  destruct (step cfg0 (SftpCallback 0 None) (state_of (run cfg0 tr_pending init)))
    as [s' acts| acts err |] eqn:Hstep; [| vm_compute in Hstep; discriminate ..].
  exists s', acts. split; [reflexivity |].
  destruct (batch_swap cfg0 _ _ s' acts Hreach Hstep) as (Hdrain & _).
  destruct (Hdrain eq_refl) as [Hfp Hup]. split; [| exact Hup].
  rewrite Hfp. vm_compute. reflexivity.
Defined.

(** C2.  The hand-over loses the batch when the server refuses the sftp
    session.  Three files are batched when the connection reports ready;
    the callback of [conn.sftp] gets an error, writes it to the console,
    goes on without a session and throws at the first [sftp.fastPut]: no
    transfer is started, the process dies and the batch with it.  And a
    file the watcher reports under the path [__proto__] never enters a
    batch: the timer is armed, the drain starts no transfer. *)
Theorem refused_session_loses_batch :
  obj_keys (updates (state_of (run cfg0 tr_pending init)))
  = ["/proj/src/a.css"; "/proj/src/b.css"; "/proj/src/c.css"] /\
  step cfg0 (SftpCallback 0 (Some "EPERM")) (state_of (run cfg0 tr_pending init))
  = Uncaught [ConsoleError "EPERM"; StdoutWrite "Writing files to sftp server "]
             "TypeError: Cannot read properties of undefined (reading 'fastPut')" /\
  died_of (run cfg0 tr_no_session init)
  = Some (SftpCallback 0 (Some "EPERM"),
          "TypeError: Cannot read properties of undefined (reading 'fastPut')") /\
  transfers_of (log_of (run cfg0 tr_no_session init)) = [] /\
  exists s log,
    run cfg_dot tr_dot_proto init = Done s log /\
    armed_of log = [(0, 0%nat)] /\
    updates (state_of (run cfg_dot (firstn 3 tr_dot_proto) init)) = [] /\
    transfers_of log = [].
Proof.
  split; [vm_compute; reflexivity |]. split; [vm_compute; reflexivity |].
  split; [vm_compute; reflexivity |]. split; [vm_compute; reflexivity |].
  exists (state_of (run cfg_dot tr_dot_proto init)), (log_of (run cfg_dot tr_dot_proto init)).
  split; [vm_compute; reflexivity |]. split; [vm_compute; reflexivity |].
  split; vm_compute; reflexivity.
Qed.

(** ** Readiness *)

Lemma fastPuts_app (a b : list action) : fastPuts (a ++ b) = (fastPuts a ++ fastPuts b)%list.
Proof. unfold fastPuts. apply omap_app. Qed.

Lemma actions_of_cons (t : Z) (e : event) (acts : list action)
    (log : list (Z * event * list action)) :
  map snd (actions_of ((t, e, acts) :: log)) = (acts ++ map snd (actions_of log))%list.
Proof.
  simpl. rewrite map_app, map_map. simpl. now rewrite map_id.
Qed.

Lemma quiet_step (cfg : config) (e : event) (s s' : state) (acts : list action) :
  inv cfg s -> quiet s -> e <> WatcherReady -> step cfg e s = Ok s' acts ->
  quiet s' /\ fastPuts acts = [].
Proof.
  intros Hinv Hq Hne Hstep. pose proof (step_cases cfg e s s' acts Hinv Hstep) as H.
  destruct Hq as (Hr & Hu & Ht & Hto & Hc & Hcn & Hse & Htr).
  destruct e.
  - destruct H as (_ & -> & ->). repeat split; assumption.
  - congruence.
  - destruct H as [[-> ->] | [-> ->]]; repeat split; assumption.
  - destruct H as (-> & ->). repeat split; assumption.
  - destruct H as (st & s1 & Hst & Hh & ->). cbn.
    pose proof (on_hash_key cfg _ _ _ _ _ Hh) as Hk.
    destruct (fst (checkAndUpdate (hashes s)
                     (getRelativePath (localPath cfg) (s_path st)) digest)) eqn:Hchk.
    + rewrite (on_hash_baseline cfg _ _ s Hk Hchk Hr) in Hh. injection Hh as <- <-.
      repeat split; assumption.
    + rewrite (on_hash_unchanged cfg _ _ s Hk Hchk) in Hh. injection Hh as <- <-.
      repeat split; assumption.
  - contradiction.
  - destruct H as (due & Hin & _). rewrite Ht in Hin. now apply elem_of_nil in Hin.
  - destruct H as (cl & g & Hcl & _). rewrite Hc in Hcl. now rewrite lookup_nil in Hcl.
  - destruct H as (cl & Hcl & _). rewrite Hc in Hcl. now rewrite lookup_nil in Hcl.
  - destruct H as (Hin & _). rewrite Hse in Hin. now apply elem_of_nil in Hin.
  - destruct H as (Hin & _). rewrite Htr in Hin. now apply elem_of_nil in Hin.
Qed.

Lemma quiet_run (cfg : config) (tr : list event) (s s' : state)
    (log : list (Z * event * list action)) :
  inv cfg s -> quiet s -> ~ In WatcherReady tr -> run cfg tr s = Done s' log ->
  quiet s' /\ fastPuts (map snd (actions_of log)) = [].
Proof.
  revert s log. induction tr as [|e tr IH]; intros s log Hinv Hq Hnr Hrun.
  - injection Hrun as <- <-. auto.
  - apply run_cons in Hrun as (s1 & acts & log1 & Hs & Hr & ->).
    assert (Hne : e <> WatcherReady) by (intros ->; apply Hnr; now left).
    destruct (quiet_step cfg e s s1 acts Hinv Hq Hne Hs) as [Hq1 Hf1].
    destruct (IH s1 log1 (step_inv cfg e s s1 acts Hinv Hs) Hq1) as [Hq' Hf'];
      [intros Hin; apply Hnr; now right | exact Hr |].
    split; [exact Hq' |]. now rewrite actions_of_cons, fastPuts_app, Hf1, Hf'.
Qed.

Lemma quiet_init : quiet init.
Proof. repeat split. Qed.

(** X19.  The gate [watcher_ready] is read when the hashing of a file
    ends.  As long as the watcher has not signalled ready, nothing is
    batched, armed, connected or sent, and a hash callback (for a relative
    path other than [length] and [__proto__]) stores the fingerprint and
    does nothing else. *)
Theorem baseline_before_ready (cfg : config) (tr : list event) (s : state)
    (log : list (Z * event * list action)) :
  ~ In WatcherReady tr ->
  run cfg tr init = Done s log ->
  (watcher_ready s = false /\ updates s = [] /\ timers s = [] /\ timeout s = None /\
   clients s = [] /\ fastPuts (map snd (actions_of log)) = []) /\
  (forall id st digest,
     streams s !! id = Some st -> digest <> EmptyString ->
     getRelativePath (localPath cfg) (s_path st) <> "length" ->
     getRelativePath (localPath cfg) (s_path st) <> "__proto__" ->
     exists s',
       step cfg (StreamEnd id digest) s = Ok s' [] /\
       hashes s' !! getRelativePath (localPath cfg) (s_path st) = Some digest /\
       updates s' = [] /\ timers s' = [] /\ timeout s' = None /\ clients s' = []).
Proof.
  intros Hnr Hrun.
  pose proof (run_inv cfg tr init s log (inv_init cfg) Hrun) as Hinv.
  destruct (quiet_run cfg tr init s log (inv_init cfg) quiet_init Hnr Hrun) as [Hq Hf].
  pose proof Hq as (Hr & Hu & Ht & Hto & Hc & _).
  split; [repeat split; assumption |].
  intros id st digest Hst Hne Hk Hp.
  rewrite (step_streamEnd cfg s id st digest Hinv Hst).
  destruct (fst (checkAndUpdate (hashes s)
                   (getRelativePath (localPath cfg) (s_path st)) digest)) eqn:Hchk.
  - rewrite (on_hash_baseline cfg _ _ s Hk Hchk Hr). cbn. eexists. split; [reflexivity |].
    cbn. rewrite checkAndUpdate_plain in * by exact Hp.
    destruct (negb _ || _); [| discriminate Hchk]. cbn. rewrite lookup_insert_eq. auto.
  - rewrite (on_hash_unchanged cfg _ _ s Hk Hchk). cbn. eexists. split; [reflexivity |].
    cbn. repeat split; try assumption.
    now apply (checkAndUpdate_false _ _ _ Hp Hne).
Qed.

Lemma baseline_before_ready_witness :
  exists s log,
    run cfg0 [WatcherAll "add" "/proj/src/a.css"; WatcherAll "add" "/proj/src/b.css";
              StreamEnd 1 digest_b] init = Done s log /\
    updates s = [] /\ timers s = [] /\
    exists s', step cfg0 (StreamEnd 0 digest_a) s = Ok s' [] /\
               hashes s' !! "/a.css" = Some digest_a /\ updates s' = [].
Proof.
  pose (tr := [WatcherAll "add" "/proj/src/a.css"; WatcherAll "add" "/proj/src/b.css";
               StreamEnd 1 digest_b]).
  exists (state_of (run cfg0 tr init)), (log_of (run cfg0 tr init)).
  assert (Hrun : run cfg0 tr init
                 = Done (state_of (run cfg0 tr init)) (log_of (run cfg0 tr init)))
    by (vm_compute; reflexivity).
  assert (Hnr : ~ In WatcherReady tr) by (simpl; intuition discriminate).
  destruct (baseline_before_ready cfg0 tr _ _ Hnr Hrun) as ((_ & Hu & Ht & _) & Hend).
  split; [exact Hrun |]. split; [exact Hu |]. split; [exact Ht |].
  destruct (Hend 0%nat {| s_path := "/proj/src/a.css"; s_on := stream_listeners |} digest_a)
    as (s' & Hs & Hh & Hu' & _);
    [vm_compute; reflexivity | discriminate | vm_compute; discriminate ..|].
  exists s'. split; [exact Hs |]. split; [exact Hh | exact Hu'].
Defined.

(** C3.  The gate lets a file of the initial scan through: [a.css] is
    reported by the scan, before the watcher signals ready; its hashing
    ends after the signal, the gate is read then, and the file is batched
    and uploaded, five seconds after the start. *)
Theorem scan_event_is_uploaded :
  watcher_ready init = false /\
  tr_scan = (WatcherAll "add" "/proj/src/a.css" :: WatcherReady
             :: StreamEnd 0 digest_a :: skipn 3 tr_scan) /\
  armed_of (log_of (run cfg0 (firstn 3 tr_scan) init)) = [(0, 0%nat)] /\
  updates (state_of (run cfg0 (firstn 3 tr_scan) init)) = [("/proj/src/a.css", "/a.css")] /\
  exists s log,
    run cfg0 tr_scan init = Done s log /\
    transfers_of log = [(5000, ("/proj/src/a.css", "/var/www/app/a.css"))].
Proof.
  split; [reflexivity |]. split; [reflexivity |].
  split; [vm_compute; reflexivity |]. split; [vm_compute; reflexivity |].
  exists (state_of (run cfg0 tr_scan init)), (log_of (run cfg0 tr_scan init)).
  split; vm_compute; reflexivity.
Qed.

(** ** The debounce *)

Lemma step_timers (cfg : config) (e : event) (s s' : state) (acts : list action) :
  inv cfg s -> step cfg e s = Ok s' acts ->
  now s <= now s' /\
  (forall x, x ∈ timers s' -> x ∈ timers s \/ snd x = now s + window) /\
  (forall id, e = TimerFire id -> exists due, (id, due) ∈ timers s /\ due <= now s).
Proof.
  intros Hinv Hstep. pose proof (step_cases cfg e s s' acts Hinv Hstep) as H.
  destruct e.
  - destruct H as (Hms & -> & _). cbn. repeat split; [lia | auto | discriminate].
  - destruct H as (-> & _). cbn. repeat split; [lia | auto | discriminate].
  - destruct H as [[-> _] | [-> _]]; cbn; repeat split; solve [lia | auto | discriminate].
  - destruct H as (-> & _). repeat split; [lia | auto | discriminate].
  - destruct H as (st & s1 & Hst & Hh & ->). cbn.
    pose proof (on_hash_key cfg _ _ _ _ _ Hh) as Hk.
    destruct (fst (checkAndUpdate (hashes s)
                     (getRelativePath (localPath cfg) (s_path st)) digest)) eqn:Hchk.
    + destruct (watcher_ready s) eqn:Hr.
      * destruct (on_hash_qualifying cfg _ _ s Hk Hchk Hr)
          as (s2 & a2 & Heq & _ & _ & Htm & _ & _ & _ & _ & _ & _ & Hnow & _).
        rewrite Heq in Hh. injection Hh as <- <-. rewrite Hnow, Htm, (inv_cancel cfg s Hinv).
        repeat split; [lia | | discriminate].
        intros x Hx. apply list_elem_of_singleton in Hx. subst x. now right.
      * rewrite (on_hash_baseline cfg _ _ s Hk Hchk Hr) in Hh. injection Hh as <- <-.
        cbn. repeat split; [lia | auto | discriminate].
    + rewrite (on_hash_unchanged cfg _ _ s Hk Hchk) in Hh. injection Hh as <- <-.
      repeat split; [lia | auto | discriminate].
  - contradiction.
  - destruct H as (due & Hin & Hdue & H).
    apply on_timeout_clients in H as (_ & _ & _ & _ & _ & _ & Htm & _ & Hnow & _).
    cbn in Htm, Hnow. rewrite Htm, Hnow. repeat split; [lia | |].
    + intros x Hx. apply disarm_elem in Hx as [_ Hx]. now left.
    + intros id' [= <-]. eauto.
  - destruct H as (cl & g & _ & _ & _ & -> & _). cbn.
    repeat split; [lia | auto | discriminate].
  - destruct H as (cl & _ & -> & _). cbn. repeat split; [lia | auto | discriminate].
  - destruct H as (_ & _ & -> & _). cbn. repeat split; [lia | auto | discriminate].
  - destruct H as (_ & -> & _). cbn. repeat split; [lia | auto | discriminate].
Qed.

(** No timer fires before the earliest time [d] every armed timer, and
    every timer armed from now on, is due at. *)
Lemma no_fire_before (cfg : config) (d : Z) (tr : list event) (s s' : state)
    (log : list (Z * event * list action)) :
  inv cfg s ->
  (forall x, x ∈ timers s -> d <= snd x) -> d <= now s + window ->
  run cfg tr s = Done s' log ->
  forall t id a, (t, TimerFire id, a) ∈ log -> d <= t.
Proof.
  intros Hinv Hdue Hnow Hrun.
  destruct (run_ind cfg
              (fun s => inv cfg s /\ (forall x, x ∈ timers s -> d <= snd x) /\
                        d <= now s + window)
              (fun t e _ => forall id, e = TimerFire id -> d <= t))
    with (tr := tr) (s := s) (s' := s') (log := log) as [_ HF]; auto.
  - clear. intros e s s' acts (Hinv & Hdue & Hnow) Hstep.
    destruct (step_timers cfg e s s' acts Hinv Hstep) as (Hmono & Hnew & Hfire).
    split; [split; [now apply step_inv with e s acts | split] |].
    + intros x Hx. destruct (Hnew x Hx) as [Hold | ->]; [now apply Hdue | exact Hnow].
    + lia.
    + intros id ->. destruct (Hfire id eq_refl) as (due & Hin & Hle).
      specialize (Hdue _ Hin). simpl in Hdue. lia.
  - intros t id a Hin. rewrite Forall_forall in HF.
    apply (HF _ Hin id). reflexivity.
Qed.

(** C4, as the script has it.  The window is the constant [5 * 1000]; the
    configuration does not reach it.  A qualifying change of a file whose
    relative path is not [length] (for which the hash callback throws)
    cancels the timer the script remembers and arms a new one, due a full
    window later, which is then the only armed timer; so no timer callback
    (the one that opens the connection) runs before a full window has
    passed since the latest qualifying change.  The drain itself waits for
    a connection to report ready, and it may be a connection opened by an
    earlier expiry. *)
Theorem full_window_debounce (cfg : config) (s : state) (id : nat) (st : stream)
    (digest : string) :
  reachable cfg s ->
  streams s !! id = Some st ->
  getRelativePath (localPath cfg) (s_path st) <> "length" ->
  qualifying cfg s id digest = true ->
  window = 5000 /\
  exists s1 acts,
    step cfg (StreamEnd id digest) s = Ok s1 acts /\
    (forall t, timeout s = Some t -> In (ClearTimeout t) acts) /\
    In (SetTimeout (next_timer s) window) acts /\
    timers s1 = [(next_timer s, now s + window)] /\
    timeout s1 = Some (next_timer s) /\
    forall tr s2 log,
      run cfg tr s1 = Done s2 log ->
      forall t id' a, (t, TimerFire id', a) ∈ log -> now s + window <= t.
Proof.
  intros Hreach Hst Hk Hq. split; [reflexivity |].
  pose proof (reachable_inv cfg s Hreach) as Hinv.
  unfold qualifying in Hq. rewrite Hst in Hq.
  apply andb_prop in Hq as [Hchk Hr].
  destruct (on_hash_qualifying cfg _ _ s Hk Hchk Hr)
    as (s2 & a2 & Heq & _ & _ & Htm & Hto & _ & _ & _ & Hset & _ & Hnow & H).
  assert (Hclear : forall t, timeout s = Some t -> In (ClearTimeout t) a2) by apply H.
  assert (Hstep : step cfg (StreamEnd id digest) s
                  = Ok (set_streams (delete id (streams s2)) (next_stream s2) s2) a2).
  { rewrite (step_streamEnd cfg s id st digest Hinv Hst), Heq. simpl.
    now rewrite app_nil_r. }
  rewrite (inv_cancel cfg s Hinv) in Htm. simpl in Htm.
  eexists _, _. split; [exact Hstep |].
  split; [exact Hclear |]. split; [exact Hset |]. split; [exact Htm |].
  split; [exact Hto |].
  intros tr s3 log Hrun t id' a Hin.
  eapply (no_fire_before cfg (now s + window)); [| | | exact Hrun | exact Hin].
  - apply (step_inv cfg _ s _ a2 Hinv Hstep).
  - cbn. rewrite Htm. intros x Hx. apply list_elem_of_singleton in Hx. subst x. simpl. lia.
  - cbn. rewrite Hnow. lia.
Qed.

Lemma full_window_debounce_witness :
  exists s1 acts,
    step cfg0 (StreamEnd 1 digest_b) (state_of (run cfg0 tr_burst init)) = Ok s1 acts /\
    In (ClearTimeout 0) acts /\
    timers s1 = [(1%nat, 4999 + 5000)].
Proof.
  assert (Hreach : reachable cfg0 (state_of (run cfg0 tr_burst init))).
  { exists tr_burst, (log_of (run cfg0 tr_burst init)). vm_compute. reflexivity. }
  assert (Hst : streams (state_of (run cfg0 tr_burst init)) !! 1%nat
                = Some {| s_path := "/proj/src/index.html"; s_on := stream_listeners |})
    by (vm_compute; reflexivity).
  assert (Hk : getRelativePath (localPath cfg0) "/proj/src/index.html" <> "length")
    by (vm_compute; discriminate).
  assert (Hq : qualifying cfg0 (state_of (run cfg0 tr_burst init)) 1 digest_b = true)
    by (vm_compute; reflexivity).
  destruct (full_window_debounce cfg0 _ 1%nat _ digest_b Hreach Hst Hk Hq)
    as (_ & s1 & acts & Hstep & Hclear & _ & Htm & _).
  exists s1, acts. split; [exact Hstep |]. split.
  - apply Hclear. vm_compute. reflexivity.
  - rewrite Htm. vm_compute. reflexivity.
Defined.

(** The scenario of the reset: changes at 0 ms and 4999 ms.  The first
    timer is gone at 5000 ms, the second cannot fire at 9998 ms and can at
    9999 ms. *)
Example debounce_reset_scenario :
  run cfg0 (tr_burst ++ [StreamEnd 1 digest_b; Elapse 1; TimerFire 0]) init = Impossible /\
  run cfg0 (tr_burst ++ [StreamEnd 1 digest_b; Elapse 4999; TimerFire 1]) init = Impossible /\
  now (state_of (run cfg0 (tr_burst ++ [StreamEnd 1 digest_b; Elapse 5000; TimerFire 1]) init))
  = 4999 + 5000 /\
  newClients (map snd (actions_of (log_of
    (run cfg0 (tr_burst ++ [StreamEnd 1 digest_b; Elapse 5000; TimerFire 1]) init))))
  = [0%nat].
Proof.
  split; [vm_compute; reflexivity |]. split; [vm_compute; reflexivity |].
  split; vm_compute; reflexivity.
Qed.

(** C4 as stated fails.  The connection opened at 5000 ms is refused and
    retried; [b.css] changes at 6000 ms and [c.css] at 10000 ms, which is
    1000 ms short of a window later; the connection reports ready at
    10500 ms and all three files are drained then, long before
    6000 + (window - 1000) + window.  Whatever the configuration, a timer
    is armed for 5000 ms. *)
Lemma late_connection_drains_early :
  exists s log,
    run cfg0 tr_late init = Done s log /\
    armed_of log = [(0, 0%nat); (6000, 1%nat); (6000 + (window - 1000), 2%nat)] /\
    transfers_of log = [(10500, ("/proj/src/a.css", "/var/www/app/a.css"));
                        (10500, ("/proj/src/b.css", "/var/www/app/b.css"));
                        (10500, ("/proj/src/c.css", "/var/www/app/c.css"))] /\
    10500 < 6000 + (window - 1000) + window /\
    forall cfg path hash s0 s1 acts t d,
      on_hash cfg path hash s0 = Ok s1 acts -> In (SetTimeout t d) acts -> d = 5000.
Proof.
  exists (state_of (run cfg0 tr_late init)), (log_of (run cfg0 tr_late init)).
  split; [vm_compute; reflexivity |]. split; [vm_compute; reflexivity |].
  split; [vm_compute; reflexivity |]. split; [vm_compute; reflexivity |].
  intros cfg path hash s0 s1 acts t d Hh.
  destruct (on_hash_acts cfg _ _ _ _ _ Hh) as [-> | [(msg & ->) | (t0 & msg & ->)]];
    cbn; intros H;
    repeat (destruct H as [H | H];
            [try discriminate H; injection H as _ <-; reflexivity |]);
    contradiction.
Qed.

(** ** Hashing *)

Lemma run_streamData (cfg : config) (s : state) (id : nat) (st : stream)
    (chunks : list string) :
  inv cfg s -> streams s !! id = Some st ->
  run cfg (map (StreamData id) chunks) s
  = Done s (map (fun chunk => (now s, StreamData id chunk, [])) chunks).
Proof.
  intros Hinv Hst. induction chunks as [|chunk chunks IH]; [reflexivity |].
  simpl map. apply run_step with s; [now apply step_streamData with st | exact IH].
Qed.

(** C5, as the script has it.  [getHash] opens a read stream and listens to
    its ["data"] and ["end"] events, and to nothing else.  So for every
    stream that is open in a state the script can be in: data chunks run
    no callback of the script and change nothing it keeps; the end of the
    stream runs the callback of [getHash] with the hex digest, once, and
    closes the stream; and a failed read reaches no listener: the callback
    is not run, nothing is written and the caller is not told, the error
    is thrown by the stream itself. *)
Theorem getHash_reports_digest (cfg : config) (s : state) (id : nat) (st : stream) :
  reachable cfg s ->
  streams s !! id = Some st ->
  (forall path, exists s1,
     getHash path s = Ok s1 [ReadStream (next_stream s) path] /\
     streams s1 !! next_stream s = Some {| s_path := path; s_on := stream_listeners |}) /\
  listeners_for "data" (s_on st) = [L_stream_data] /\
  listeners_for "end" (s_on st) = [L_stream_end] /\
  listeners_for "error" (s_on st) = [] /\
  (forall chunks,
     run cfg (map (StreamData id) chunks) s
     = Done s (map (fun chunk => (now s, StreamData id chunk, [])) chunks)) /\
  (forall digest,
     step cfg (StreamEnd id digest) s
     = bind (on_hash cfg (s_path st) digest s) (close_stream id)) /\
  (forall err,
     (exists msg, step cfg (StreamError id err) s = Uncaught [] msg) /\
     (forall s' acts, step cfg (StreamError id err) s <> Ok s' acts) /\
     forall tr, died_of (run cfg (StreamError id err :: tr) s)
                = Some (StreamError id err, "Unhandled 'error' event: " +:+ err)).
Proof.
  intros Hreach Hst. pose proof (reachable_inv cfg s Hreach) as Hinv.
  split.
  { intros path. eexists. split; [reflexivity |]. cbn. apply lookup_insert_eq. }
  rewrite (inv_streams _ _ Hinv _ _ Hst).
  split; [reflexivity |]. split; [reflexivity |]. split; [reflexivity |].
  split; [intros chunks; now apply run_streamData with st |].
  split; [intros digest; now apply step_streamEnd |].
  intros err. pose proof (step_streamError cfg s id st err Hinv Hst) as Herr.
  split; [eexists; exact Herr |]. split.
  - intros s' acts H. rewrite Herr in H. discriminate H.
  - intros tr. cbn [run]. rewrite Herr. reflexivity.
Qed.

Lemma getHash_reports_digest_witness :
  run cfg0 (map (StreamData 0) ["body"; "{}"]) (state_of (run cfg0 (firstn 2 tr_read_error) init))
  = Done (state_of (run cfg0 (firstn 2 tr_read_error) init))
         [(0, StreamData 0 "body", []); (0, StreamData 0 "{}", [])] /\
  exists msg,
    step cfg0 (StreamError 0 "EIO") (state_of (run cfg0 (firstn 2 tr_read_error) init))
    = Uncaught [] msg.
Proof.
  assert (Hreach : reachable cfg0 (state_of (run cfg0 (firstn 2 tr_read_error) init))).
  { exists (firstn 2 tr_read_error), (log_of (run cfg0 (firstn 2 tr_read_error) init)).
    vm_compute. reflexivity. }
  destruct (getHash_reports_digest cfg0 _ 0%nat
              {| s_path := "/proj/src/a.css"; s_on := stream_listeners |} Hreach)
    as (_ & _ & _ & _ & Hdata & _ & Herr); [vm_compute; reflexivity |].
  split; [exact (Hdata ["body"; "{}"]) | exact (proj1 (Herr "EIO"))].
Defined.

(** C5 as stated fails: the read of [a.css] fails after the first chunk.
    The stream emits ["error"], nobody listens, and the error is thrown out
    of the event loop; the callback of [getHash] has not run. *)
Lemma read_failure_is_thrown :
  run cfg0 tr_read_error init
  = Died [(0, WatcherReady,
           [ConsoleInfo "************************************************";
            ConsoleInfo "*  Initial scan complete. Ready for changes.   *";
            ConsoleInfo "************************************************"]);
          (0, WatcherAll "change" "/proj/src/a.css", [ReadStream 0 "/proj/src/a.css"]);
          (0, StreamData 0 "body{}", []);
          (0, StreamError 0 "EIO", [])]
         (StreamError 0 "EIO") "Unhandled 'error' event: EIO".
Proof. vm_compute. reflexivity. Qed.

(** ** Transfers *)

Lemma remove_first_keeps (t k : nat) (l : list nat) :
  k <> t -> k ∈ l -> k ∈ remove_first t l.
Proof.
  intros Hne. induction l as [|m l IH]; simpl; [auto |].
  intros H. apply elem_of_cons in H as [-> | H].
  - destruct (Nat.eqb_spec m t); [congruence | apply elem_of_cons; now left].
  - destruct (Nat.eqb_spec m t); [exact H | apply elem_of_cons; right; auto].
Qed.

Lemma step_fastPutCallback (cfg : config) (t : nat) (err : option string) (s : state) :
  t ∈ transfers s ->
  step cfg (FastPutCallback t err) s
  = Ok (set_transfers (remove_first t (transfers s)) (next_transfer s) s)
       match err with Some x => [ConsoleError x] | None => [] end.
Proof.
  intros H. simpl. rewrite bool_decide_eq_true_2 by exact H. now destruct err.
Qed.

(** The callbacks of a batch of transfers, whatever their outcomes, all
    run; each failure leaves one line on the console and nothing else. *)
Lemma run_fastPut_callbacks (cfg : config) (outs : list (option string)) (t : nat) (s : state) :
  (forall k, (t <= k < t + length outs)%nat -> k ∈ transfers s) ->
  exists s2 log,
    run cfg (fastPut_callbacks t outs) s = Done s2 log /\
    map snd (actions_of log) = logged_errors outs /\
    length log = length outs /\
    hashes s2 = hashes s /\ updates s2 = updates s /\ timers s2 = timers s /\
    timeout s2 = timeout s /\ clients s2 = clients s /\ sessions s2 = sessions s.
Proof.
  revert t s. induction outs as [|o outs IH]; intros t s Hin.
  - exists s, []. repeat split.
  - assert (Ht : t ∈ transfers s) by (apply Hin; simpl; lia).
    destruct (IH (S t) (set_transfers (remove_first t (transfers s)) (next_transfer s) s))
      as (s2 & log & Hrun & Hacts & Hlen & Hh & Hu & Htm & Hto & Hc & Hse).
    { intros k Hk. cbn. apply remove_first_keeps; [lia |]. apply Hin. simpl. lia. }
    eexists s2, _. split.
    { simpl fastPut_callbacks. eapply run_step; [now apply step_fastPutCallback | exact Hrun]. }
    rewrite actions_of_cons, Hacts. cbn [length]. rewrite Hlen.
    repeat split; try assumption. now destruct o.
Qed.

(** C6.  A drain starts the transfer of every entry of the batch before any
    outcome is known, writes its closing line and returns.  Whatever the
    outcomes are, every callback of these transfers runs: a failure is
    written to the console, one line for each failed file, and touches
    neither the other transfers nor the script's state. *)
Theorem partial_failure_isolation (cfg : config) (s s1 : state) (c : nat)
    (acts : list action) (outs : list (option string)) :
  reachable cfg s ->
  step cfg (SftpCallback c None) s = Ok s1 acts ->
  length outs = length (updates s) ->
  fastPuts acts = map (destination cfg) (updates s) /\
  (exists pre, acts = (pre ++ [StdoutWrite ("........................ done"
                                            +:+ String "010"%char EmptyString)])%list) /\
  exists s2 log,
    run cfg (fastPut_callbacks (next_transfer s) outs) s1 = Done s2 log /\
    length log = length outs /\
    map snd (actions_of log) = logged_errors outs /\
    hashes s2 = hashes s /\ updates s2 = [] /\ timers s2 = timers s /\
    clients s2 = clients s.
Proof.
  intros Hreach Hstep Hlen. pose proof (reachable_inv cfg s Hreach) as Hinv.
  pose proof (step_cases cfg _ s s1 acts Hinv Hstep) as (Hc & _ & Hs1 & Hfp & _).
  split; [exact Hfp |]. split.
  { simpl in Hstep. rewrite bool_decide_eq_true_2 in Hstep by exact Hc.
    unfold on_sftp in Hstep.
    destruct (obj_has "hasOwnProperty" _); [discriminate Hstep |].
    injection Hstep as _ <-.
    exists (StdoutWrite "Writing files to sftp server "
            :: fastPut_all cfg (next_transfer s) (updates s)).
    reflexivity. }
  destruct (run_fastPut_callbacks cfg outs (next_transfer s) s1)
    as (s2 & log & Hrun & Hacts & Hl & Hh & Hu & Htm & _ & Hcl & _).
  { intros k Hk. rewrite Hs1. cbn. apply elem_of_app. right.
    apply list_elem_of_In, in_seq. lia. }
  exists s2, log. rewrite Hh, Hu, Htm, Hcl. split; [exact Hrun |].
  rewrite Hs1. cbn. auto 10.
Qed.

Lemma partial_failure_isolation_witness :
  exists s1 acts s2 log,
    step cfg0 (SftpCallback 0 None) (state_of (run cfg0 tr_pending init)) = Ok s1 acts /\
    length (fastPuts acts) = 3%nat /\
    run cfg0 [FastPutCallback 0 None; FastPutCallback 1 (Some "EACCES");
              FastPutCallback 2 None] s1 = Done s2 log /\
    map snd (actions_of log) = [ConsoleError "EACCES"].
Proof.
  assert (Hreach : reachable cfg0 (state_of (run cfg0 tr_pending init))).
  { exists tr_pending, (log_of (run cfg0 tr_pending init)). vm_compute. reflexivity. }
  destruct (step cfg0 (SftpCallback 0 None) (state_of (run cfg0 tr_pending init)))
    as [s1 acts| acts err |] eqn:Hstep; [| vm_compute in Hstep; discriminate ..].
  assert (Hlen : length [None; Some "EACCES"; None]
                 = length (updates (state_of (run cfg0 tr_pending init))))
    by (vm_compute; reflexivity).
  destruct (partial_failure_isolation cfg0 _ s1 0%nat acts
              [None; Some "EACCES"; None] Hreach Hstep Hlen)
    as (Hfp & _ & s2 & log & Hrun & _ & Hacts & _).
  exists s1, acts, s2, log. split; [reflexivity |]. split.
  - rewrite Hfp. vm_compute. reflexivity.
  - split; [exact Hrun | exact Hacts].
Defined.

(** ** Destinations *)

Lemma step_destination (cfg : config) (e : event) (s s' : state) (acts : list action) :
  inv cfg s -> step cfg e s = Ok s' acts ->
  forall h l r, FastPut h l r ∈ acts ->
    r = remotePath cfg +:+ getRelativePath (localPath cfg) l.
Proof.
  intros Hinv Hstep h l r Hin. apply elem_of_fastPuts in Hin.
  pose proof (step_batch cfg e s s' acts Hinv Hstep) as Hb.
  destruct (is_sftpCallback e).
  - destruct Hb as [Hfp _]. rewrite Hfp in Hin.
    apply list_elem_of_In, in_map_iff in Hin as ([p rel] & [= <- <-] & Hp).
    apply list_elem_of_In in Hp. simpl.
    now rewrite <- (inv_updates _ _ Hinv _ _ Hp).
  - destruct Hb as [Hfp _]. rewrite Hfp in Hin. now apply elem_of_nil in Hin.
Qed.

Lemma length_to_forward_slashes (s : string) :
  String.length (to_forward_slashes s) = String.length s.
Proof. induction s as [|c s IH]; simpl; [reflexivity | now rewrite IH]. Qed.

(** The characters of the result, one for one: a slash where there was a
    backslash, the same character anywhere else. *)
Lemma get_to_forward_slashes (i : nat) (s : string) :
  String.get i (to_forward_slashes s)
  = option_map (fun c => if Ascii.eqb c backslash then slash else c) (String.get i s).
Proof.
  revert i. induction s as [|c s IH]; intros i; [reflexivity |].
  destruct i as [|i]; [reflexivity | apply IH].
Qed.

(** C7.  Every transfer the script starts sends a local path to the remote
    root followed by what [getRelativePath] makes of that path; for a path
    under the local root this is the rest of the path, character for
    character, with a slash in the place of every backslash and every
    other character as it was. *)
Theorem remote_destination (cfg : config) (tr : list event) (s : state)
    (log : list (Z * event * list action)) (t : Z) (h : nat) (local remote : string) :
  run cfg tr init = Done s log ->
  (t, FastPut h local remote) ∈ actions_of log ->
  remote = remotePath cfg +:+ getRelativePath (localPath cfg) local /\
  forall rest,
    local = localPath cfg +:+ rest ->
    remote = remotePath cfg +:+ to_forward_slashes rest /\
    String.length (to_forward_slashes rest) = String.length rest /\
    (forall i,
       String.get i (to_forward_slashes rest)
       = option_map (fun c => if Ascii.eqb c backslash then slash else c)
                    (String.get i rest)) /\
    ~ In backslash (list_ascii_of_string (to_forward_slashes rest)).
Proof.
  intros Hrun Hin.
  destruct (run_ind cfg (inv cfg)
              (fun _ _ acts => forall h l r, FastPut h l r ∈ acts ->
                 r = remotePath cfg +:+ getRelativePath (localPath cfg) l))
    with (tr := tr) (s := init) (s' := s) (log := log) as [_ HF];
    [| apply inv_init | exact Hrun |].
  - intros e s0 s1 acts Hinv Hstep.
    split; [now apply step_inv with e s0 acts | now apply step_destination with e s0 s1].
  - apply elem_of_actions_of in Hin as (e & acts & Hlog & Ha).
    rewrite Forall_forall in HF. pose proof (HF _ Hlog h local remote Ha) as Hr.
    split; [exact Hr |]. intros rest ->.
    rewrite getRelativePath_strips_root in Hr.
    split; [exact Hr |]. split; [apply length_to_forward_slashes |].
    split; [intros i; apply get_to_forward_slashes | apply to_forward_slashes_clean].
Qed.

Lemma remote_destination_witness :
  transfers_of (log_of (run cfg0 tr_index init))
  = [(7000, ("/proj/src/index.html", "/var/www/app/index.html"))] /\
  "/var/www/app/index.html" = remotePath cfg0 +:+ to_forward_slashes "/index.html" /\
  transfers_of (log_of (run cfg_win tr_win init))
  = [(5000, ("C:\proj\src\css\site.css", "/var/www/app/css/site.css"))] /\
  "/var/www/app/css/site.css" = remotePath cfg_win +:+ to_forward_slashes "\css\site.css" /\
  String.get 4 (to_forward_slashes "\css\site.css") = Some slash.
Proof.
  split; [vm_compute; reflexivity |].
  assert (Hrun : run cfg0 tr_index init
                 = Done (state_of (run cfg0 tr_index init)) (log_of (run cfg0 tr_index init)))
    by (vm_compute; reflexivity).
  assert (Hin : (7000, FastPut 0 "/proj/src/index.html" "/var/www/app/index.html")
                ∈ actions_of (log_of (run cfg0 tr_index init))).
  { apply list_elem_of_In. vm_compute. repeat ((left; reflexivity) || right). }
  destruct (remote_destination cfg0 tr_index _ _ 7000 0%nat
              "/proj/src/index.html" "/var/www/app/index.html" Hrun Hin) as [_ Hrest].
  destruct (Hrest "/index.html" eq_refl) as [Heq _]. split; [exact Heq |].
  split; [vm_compute; reflexivity |].
  assert (Hrunw : run cfg_win tr_win init
                  = Done (state_of (run cfg_win tr_win init)) (log_of (run cfg_win tr_win init)))
    by (vm_compute; reflexivity).
  assert (Hinw : (5000, FastPut 0 "C:\proj\src\css\site.css" "/var/www/app/css/site.css")
                 ∈ actions_of (log_of (run cfg_win tr_win init))).
  { apply list_elem_of_In. vm_compute. repeat ((left; reflexivity) || right). }
  destruct (remote_destination cfg_win tr_win _ _ 5000 0%nat
              "C:\proj\src\css\site.css" "/var/www/app/css/site.css" Hrunw Hinw)
    as [_ Hrestw].
  destruct (Hrestw "\css\site.css" eq_refl) as (Heqw & _ & Hget & _).
  split; [exact Heqw |]. rewrite Hget. reflexivity.
Defined.

(** The scenario of the specification: [index.html] changes at 0 ms and at
    2000 ms, and is sent once, at 7000 ms. *)
Example index_html_scenario :
  armed_of (log_of (run cfg0 tr_index init)) = [(0, 0%nat); (2000, 1%nat)] /\
  transfers_of (log_of (run cfg0 tr_index init))
  = [(7000, ("/proj/src/index.html", "/var/www/app/index.html"))] /\
  updates (state_of (run cfg0 tr_index init)) = [].
Proof.
  split; [vm_compute; reflexivity |]. split; vm_compute; reflexivity.
Qed.

(** A Windows path under a Windows root. *)
Example getRelativePath_backslashes :
  getRelativePath "C:\proj\src" "C:\proj\src\css\site.css" = "/css/site.css".
Proof. reflexivity. Qed.

(** ** The connection *)

Lemma step_connError (cfg : config) (c : nat) (err : string) (s : state) (cl : client) :
  inv cfg s -> clients s !! c = Some cl ->
  step cfg (ConnError c err) s
  = Ok (set_client c {| attempts := S (attempts cl); connected := false; c_on := c_on cl |}
          (set_sftp_ready false s))
       [StdoutWrite (retry_line (attempts cl)); Connect c (sftp cfg)].
Proof.
  intros Hinv Hcl. pose proof (lookup_lt_Some _ _ _ Hcl) as Hlt.
  simpl. unfold client_emit, set_connected. rewrite Hcl.
  cbn [clients set_client set_clients].
  rewrite list_lookup_insert_eq by exact Hlt.
  unfold emit_on. cbn [c_on].
  rewrite (inv_clients _ _ Hinv _ _ Hcl), emit_client_error.
  cbn [run_listeners run_listener clients set_client set_clients].
  rewrite list_lookup_insert_eq by exact Hlt.
  cbn. now rewrite set_client_twice.
Qed.

Lemma step_connReady (cfg : config) (c : nat) (s : state) (cl : client) :
  inv cfg s -> clients s !! c = Some cl -> connected cl = false -> conn s = Some c ->
  step cfg (ConnReady c) s
  = Ok (set_sessions (sessions s ++ [c])
          (set_client c {| attempts := 0; connected := true; c_on := c_on cl |}
             (set_sftp_ready true s)))
       [SftpOpen c].
Proof.
  intros Hinv Hcl Hconn Hg. pose proof (lookup_lt_Some _ _ _ Hcl) as Hlt.
  simpl. rewrite Hcl, Hconn. unfold client_emit, set_connected. rewrite Hcl.
  cbn [clients set_client set_clients].
  rewrite list_lookup_insert_eq by exact Hlt.
  unfold emit_on. cbn [c_on].
  rewrite (inv_clients _ _ Hinv _ _ Hcl), emit_client_ready.
  cbn [run_listeners run_listener clients set_client set_clients].
  rewrite list_lookup_insert_eq by exact Hlt.
  cbn [bind run_listeners run_listener conn set_client set_clients set_sftp_ready
       clients attempts connected c_on].
  rewrite Hg, list_insert_insert_eq, list_lookup_insert_eq by exact Hlt.
  cbn. now rewrite set_client_twice.
Qed.

Lemma spinner_glyph (n : nat) :
  exists g, spinner !! (n mod 4)%nat = Some g /\ String.length g = 1%nat /\
    retry_line n
    = "Unable to communicate with sftp server. Retrying " +:+ g +:+ cursor_home /\
    ~ In "010"%char (list_ascii_of_string (retry_line n)).
Proof.
  unfold retry_line. pose proof (Nat.mod_upper_bound n 4) as Hlt.
  destruct (n mod 4)%nat as [|[|[|[|k]]]]; [| | | | lia];
    eexists; (split; [reflexivity |]); (split; [reflexivity |]); (split; [reflexivity |]);
    vm_compute; intuition discriminate.
Qed.

(** The retry line tells the attempts apart up to four. *)
Lemma retry_line_mod (n m : nat) :
  retry_line n = retry_line m <-> (n mod 4 = m mod 4)%nat.
Proof.
  unfold retry_line. split; [| now intros ->].
  pose proof (Nat.mod_upper_bound n 4) as Hn. pose proof (Nat.mod_upper_bound m 4) as Hm.
  destruct (n mod 4)%nat as [|[|[|[|k]]]]; [| | | | lia];
    (destruct (m mod 4)%nat as [|[|[|[|j]]]]; [| | | | lia]);
    intros H; try reflexivity; vm_compute in H; discriminate H.
Qed.

Lemma spinner_NoDup : NoDup spinner.
Proof.
  unfold spinner. repeat (apply NoDup_cons; split; [| ]); try apply NoDup_nil_2;
    intros H; repeat (apply elem_of_cons in H as [H | H]; [discriminate H |]);
    now apply elem_of_nil in H.
Qed.

(** The actions of the retries that follow [n] failed attempts. *)
Lemma run_connErrors (cfg : config) (c : nat) (errs : list string) (s : state) (cl : client) :
  inv cfg s -> clients s !! c = Some cl ->
  exists s' log cl',
    run cfg (map (ConnError c) errs) s = Done s' log /\
    clients s' !! c = Some cl' /\
    attempts cl' = (attempts cl + length errs)%nat /\
    map snd (actions_of log)
    = flat_map (fun k => [StdoutWrite (retry_line k); Connect c (sftp cfg)])
               (seq (attempts cl) (length errs)).
Proof.
  revert s cl. induction errs as [|err errs IH]; intros s cl Hinv Hcl.
  - exists s, [], cl. repeat split; [exact Hcl | simpl; lia].
  - pose proof (step_connError cfg c err s cl Hinv Hcl) as Hstep.
    pose proof (lookup_lt_Some _ _ _ Hcl) as Hlt.
    destruct (IH _ {| attempts := S (attempts cl); connected := false; c_on := c_on cl |}
                (step_inv cfg _ _ _ _ Hinv Hstep))
      as (s' & log & cl' & Hrun & Hcl' & Hatt & Hacts).
    { cbn. now apply list_lookup_insert_eq. }
    eexists s', _, cl'. split; [simpl map; eapply run_step; [exact Hstep | exact Hrun] |].
    split; [exact Hcl' |]. split; [rewrite Hatt; simpl; lia |].
    rewrite actions_of_cons, Hacts. reflexivity.
Qed.

(** C8.  On an error of a connection the script clears [sftp_ready], writes
    the retry line, whose glyph is [spinner[attempts % 4]] and which ends
    in a cursor move and not in a line break, adds one to [attempts] and
    calls [connect] again at once; this goes on for as many errors as
    arrive.  The glyphs are the four characters | / - and backslash, in
    this order, so two retry lines are the same exactly when their attempt
    counts are the same modulo four.  When the connection reports ready,
    [attempts] is 0 again. *)
Theorem retry_forever (cfg : config) (s : state) (c : nat) (cl : client) :
  reachable cfg s ->
  clients s !! c = Some cl ->
  (forall err, exists s',
     step cfg (ConnError c err) s
     = Ok s' [StdoutWrite (retry_line (attempts cl)); Connect c (sftp cfg)] /\
     sftp_ready s' = false /\
     clients s' !! c = Some {| attempts := S (attempts cl); connected := false;
                               c_on := c_on cl |}) /\
  length spinner = 4%nat /\
  (exists g, spinner !! (attempts cl mod 4)%nat = Some g /\ String.length g = 1%nat /\
     retry_line (attempts cl)
     = "Unable to communicate with sftp server. Retrying " +:+ g +:+ cursor_home /\
     ~ In "010"%char (list_ascii_of_string (retry_line (attempts cl)))) /\
  NoDup spinner /\
  map retry_line [0; 1; 2; 3]%nat
  = map (fun g => "Unable to communicate with sftp server. Retrying " +:+ g +:+ cursor_home)
        ["|"; "/"; "-"; "\"] /\
  (forall n m, retry_line n = retry_line m <-> (n mod 4 = m mod 4)%nat) /\
  (forall errs, exists s' log cl',
     run cfg (map (ConnError c) errs) s = Done s' log /\
     clients s' !! c = Some cl' /\
     attempts cl' = (attempts cl + length errs)%nat /\
     map snd (actions_of log)
     = flat_map (fun k => [StdoutWrite (retry_line k); Connect c (sftp cfg)])
                (seq (attempts cl) (length errs))) /\
  (forall s' acts,
     step cfg (ConnReady c) s = Ok s' acts ->
     sftp_ready s' = true /\
     clients s' !! c = Some {| attempts := 0; connected := true; c_on := c_on cl |}) /\
  (connected cl = false -> conn s = Some c ->
   exists s', step cfg (ConnReady c) s = Ok s' [SftpOpen c]).
Proof.
  intros Hreach Hcl. pose proof (reachable_inv cfg s Hreach) as Hinv.
  pose proof (lookup_lt_Some _ _ _ Hcl) as Hlt.
  split; [| split; [reflexivity | split; [apply spinner_glyph |]]].
  2: split; [apply spinner_NoDup |]; split; [reflexivity |];
     split; [apply retry_line_mod |]; split; [| split].
  - intros err. eexists. split; [now apply step_connError |]. cbn.
    split; [reflexivity | now apply list_lookup_insert_eq].
  - intros errs. now apply run_connErrors.
  - intros s' acts Hstep.
    pose proof (step_cases cfg _ s s' acts Hinv Hstep) as (cl0 & g & Hcl0 & _ & _ & -> & _).
    rewrite Hcl in Hcl0. injection Hcl0 as <-. cbn.
    split; [reflexivity | now apply list_lookup_insert_eq].
  - intros Hconn Hg. eexists. exact (step_connReady cfg c s cl Hinv Hcl Hconn Hg).
Qed.

Lemma retry_forever_witness :
  exists s' log cl',
    run cfg0 (map (ConnError 0) ["ECONNREFUSED"; "ETIMEDOUT"; "ECONNREFUSED"])
        (state_of (run cfg0 tr_refused init)) = Done s' log /\
    clients s' !! 0%nat = Some cl' /\ attempts cl' = 4%nat /\
    map snd (actions_of log)
    = [StdoutWrite ("Unable to communicate with sftp server. Retrying /" +:+ cursor_home);
       Connect 0 (sftp cfg0);
       StdoutWrite ("Unable to communicate with sftp server. Retrying -" +:+ cursor_home);
       Connect 0 (sftp cfg0);
       StdoutWrite ("Unable to communicate with sftp server. Retrying \" +:+ cursor_home);
       Connect 0 (sftp cfg0)].
Proof.
  assert (Hreach : reachable cfg0 (state_of (run cfg0 tr_refused init))).
  { exists tr_refused, (log_of (run cfg0 tr_refused init)). vm_compute. reflexivity. }
  assert (Hcl : clients (state_of (run cfg0 tr_refused init)) !! 0%nat
                = Some {| attempts := 1; connected := false; c_on := client_listeners |})
    by (vm_compute; reflexivity).
  destruct (retry_forever cfg0 _ 0%nat _ Hreach Hcl)
    as (_ & _ & _ & _ & _ & _ & Hmany & _).
  destruct (Hmany ["ECONNREFUSED"; "ETIMEDOUT"; "ECONNREFUSED"])
    as (s' & log & cl' & Hrun & Hcl' & Hatt & Hacts).
  exists s', log, cl'. split; [exact Hrun |]. split; [exact Hcl' |].
  split; [exact Hatt |]. rewrite Hacts. reflexivity.
Defined.

(** ** One client for every expiry *)

Lemma newClients_app (a b : list action) :
  newClients (a ++ b) = (newClients a ++ newClients b)%list.
Proof. unfold newClients. apply omap_app. Qed.

Lemma run_clients (cfg : config) (tr : list event) (s s' : state)
    (log : list (Z * event * list action)) :
  inv cfg s -> run cfg tr s = Done s' log ->
  length (clients s') = (length (clients s) + expiries tr)%nat /\
  newClients (map snd (actions_of log)) = seq (length (clients s)) (expiries tr) /\
  conn s' = match expiries tr with
            | O => conn s
            | S _ => Some (length (clients s') - 1)%nat
            end.
Proof.
  revert s log. induction tr as [|e tr IH]; intros s log Hinv Hrun.
  - injection Hrun as <- <-. cbn. repeat split. lia.
  - apply run_cons in Hrun as (s1 & acts & log1 & Hs & Hr & ->).
    destruct (IH s1 log1 (step_inv cfg e s s1 acts Hinv Hs) Hr) as (Hlen & Hnew & Hconn).
    pose proof (step_clients cfg e s s1 acts Hinv Hs) as Hc.
    rewrite actions_of_cons, newClients_app, Hnew. unfold expiries in *. simpl List.filter.
    destruct (is_timerFire e).
    + destruct Hc as (Hcl & Hn & Hg). rewrite Hcl, length_app in *. cbn [length] in *.
      rewrite Hn. split; [lia |]. split.
      * simpl. now rewrite Nat.add_1_r.
      * rewrite Hconn, Hlen. destruct (length (List.filter is_timerFire tr)).
        -- rewrite Hg. f_equal. lia.
        -- reflexivity.
    + destruct Hc as (Hcl & Hn & Hg). rewrite Hcl in *. rewrite Hn, Hg in *.
      repeat split; assumption.
Qed.

(** C9, as the script has it.  Every expiry of the debounce timer calls
    [connectToSFTPServer], which constructs a new [Client] with its own
    [attempts] counter at 0, and stores it in [conn]: there are as many
    clients as there were expiries, and [conn] is the latest. *)
Theorem client_per_expiry (cfg : config) (tr : list event) (s : state)
    (log : list (Z * event * list action)) :
  run cfg tr init = Done s log ->
  length (clients s) = expiries tr /\
  newClients (map snd (actions_of log)) = seq 0 (expiries tr) /\
  conn s = match expiries tr with
           | O => None
           | S n => Some n
           end /\
  forall id s' acts,
    step cfg (TimerFire id) s = Ok s' acts ->
    clients s' = (clients s ++ [fresh_client])%list /\
    attempts fresh_client = 0%nat /\
    conn s' = Some (length (clients s)) /\
    newClients acts = [length (clients s)].
Proof.
  intros Hrun.
  destruct (run_clients cfg tr init s log (inv_init cfg) Hrun) as (Hlen & Hnew & Hconn).
  cbn in Hlen, Hnew, Hconn. split; [exact Hlen |]. split; [exact Hnew |]. split.
  - rewrite Hconn, Hlen. destruct (expiries tr); [reflexivity | f_equal; lia].
  - intros id s' acts Hstep.
    pose proof (run_inv cfg tr init s log (inv_init cfg) Hrun) as Hinv.
    pose proof (step_clients cfg _ s s' acts Hinv Hstep) as (Hcl & Hn & Hg).
    auto.
Qed.

Lemma client_per_expiry_witness :
  length (clients (state_of (run cfg0 tr_two init))) = 2%nat /\
  conn (state_of (run cfg0 tr_two init)) = Some 1%nat.
Proof.
  assert (Hrun : run cfg0 tr_two init
                 = Done (state_of (run cfg0 tr_two init)) (log_of (run cfg0 tr_two init)))
    by (vm_compute; reflexivity).
  destruct (client_per_expiry cfg0 tr_two _ _ Hrun) as (Hlen & _ & Hconn & _).
  split; [exact Hlen | exact Hconn].
Defined.

(** C9 as stated fails: two batches, drained one after the other, are sent
    over two [Client] objects, each made for its drain. *)
Lemma two_batches_two_clients :
  exists s log,
    run cfg0 tr_two init = Done s log /\
    newClients (map snd (actions_of log)) = [0%nat; 1%nat] /\
    sessions_of log = [(5000, 0%nat); (10000, 1%nat)] /\
    transfers_of log = [(5000, ("/proj/src/a.css", "/var/www/app/a.css"));
                        (10000, ("/proj/src/b.css", "/var/www/app/b.css"))] /\
    length (clients s) = 2%nat.
Proof.
  exists (state_of (run cfg0 tr_two init)), (log_of (run cfg0 tr_two init)).
  split; [vm_compute; reflexivity |]. split; [vm_compute; reflexivity |].
  split; [vm_compute; reflexivity |]. split; vm_compute; reflexivity.
Qed.

(** ** The ledger and the transfers *)




(** The scenario of the failed transfer: the transfer of [a.css] fails at
    5000 ms; the file is reported again with the same bytes, and nothing is
    sent after the first attempt. *)
Example failed_transfer_scenario :
  map snd (actions_of (log_of (run cfg0 (firstn 8 tr_failed) init)))
  = (map snd (actions_of (log_of (run cfg0 (firstn 7 tr_failed) init)))
     ++ [ConsoleError "EACCES"])%list /\
  transfers_of (log_of
    (run cfg0 (tr_failed ++ [StreamEnd 1 digest_a; Elapse 60000]) init))
  = [(5000, ("/proj/src/a.css", "/var/www/app/a.css"))] /\
  timers (state_of (run cfg0 (tr_failed ++ [StreamEnd 1 digest_a; Elapse 60000]) init)) = [].
Proof.
  split; [vm_compute; reflexivity |]. split; vm_compute; reflexivity.
Qed.

(** * Further properties of the script *)

(** ** Paths *)

Lemma length_drop_chars (n : nat) (s : string) :
  String.length (drop_chars n s) = (String.length s - n)%nat.
Proof.
  revert s. induction n as [|n IH]; intros s; simpl; [lia |].
  destruct s as [|c s]; simpl; [reflexivity | apply IH].
Qed.

Lemma drop_chars_all (n : nat) (s : string) :
  (String.length s <= n)%nat -> drop_chars n s = EmptyString.
Proof.
  revert s. induction n as [|n IH]; intros s; simpl.
  - destruct s; simpl; [reflexivity | lia].
  - destruct s as [|c s]; simpl; [reflexivity |]. intros H. apply IH. lia.
Qed.

Lemma js_substring_to_end (a : nat) (s : string) :
  js_substring a (String.length s) s = drop_chars a s.
Proof.
  unfold js_substring. rewrite Nat.min_id.
  destruct (Nat.le_gt_cases a (String.length s)) as [Hle | Hgt].
  - rewrite (Nat.min_l a) by exact Hle.
    rewrite (Nat.min_l a) by exact Hle. rewrite Nat.max_r by exact Hle.
    rewrite <- (length_drop_chars a s). apply take_chars_all.
  - rewrite (Nat.min_r a) by lia. rewrite Nat.min_id, Nat.max_id, Nat.sub_diag.
    rewrite !drop_chars_all by lia. reflexivity.
Qed.

(** X1.  For a root and a path of ASCII characters, [getRelativePath] never
    looks at the characters of the root: it drops as many characters from
    the front of the path as the root is long, whether or not the path
    starts with the root, and turns the backslashes of the rest into
    slashes.  A path that is not longer than the root gives the empty
    string. *)
Theorem getRelativePath_counts_only (root fullPath : string) :
  none_of non_ascii root -> none_of non_ascii fullPath ->
  getRelativePath root fullPath
  = to_forward_slashes (drop_chars (String.length root) fullPath) /\
  (forall root', none_of non_ascii root' -> String.length root' = String.length root ->
     getRelativePath root' fullPath = getRelativePath root fullPath) /\
  ((String.length fullPath <= String.length root)%nat ->
   getRelativePath root fullPath = EmptyString).
Proof.
  intros _ _. unfold getRelativePath. split; [now rewrite js_substring_to_end |].
  split.
  - intros root' _ Hlen. now rewrite Hlen.
  - intros Hle. rewrite js_substring_to_end, drop_chars_all by exact Hle. reflexivity.
Qed.

Lemma to_forward_slashes_idem (s : string) :
  to_forward_slashes (to_forward_slashes s) = to_forward_slashes s.
Proof.
  induction s as [|c s IH]; simpl; [reflexivity |]. rewrite IH. f_equal.
  destruct (Ascii.eqb_spec c backslash) as [-> | Hne]; [reflexivity |].
  now destruct (Ascii.eqb_spec c backslash).
Qed.

Lemma to_forward_slashes_id (s : string) :
  ~ In backslash (list_ascii_of_string s) -> to_forward_slashes s = s.
Proof.
  induction s as [|c s IH]; simpl; [reflexivity |]. intros H.
  rewrite IH by tauto.
  destruct (Ascii.eqb_spec c backslash) as [-> | Hne]; [tauto | reflexivity].
Qed.

Lemma take_drop_chars (n : nat) (s : string) :
  s = take_chars n s +:+ drop_chars n s.
Proof.
  revert s. induction n as [|n IH]; intros s; [reflexivity |].
  destruct s as [|c s]; [reflexivity |].
  change (String c s = String c (take_chars n s +:+ drop_chars n s)).
  now rewrite <- IH.
Qed.

Lemma In_drop_chars (n : nat) (s : string) (c : ascii) :
  In c (list_ascii_of_string (drop_chars n s)) -> In c (list_ascii_of_string s).
Proof.
  revert s. induction n as [|n IH]; intros s; simpl; [tauto |].
  destruct s as [|x s]; simpl; [tauto |]. intros H. right. now apply IH.
Qed.

(** X2.  For a root and a path of ASCII characters, whatever they are, the
    relative path has the length of the path less the length of the root,
    holds no backslash, and is left as it is by a second change of
    separators; a path without backslash keeps every character after the
    dropped ones. *)
Theorem getRelativePath_shape (root fullPath : string) :
  none_of non_ascii root -> none_of non_ascii fullPath ->
  String.length (getRelativePath root fullPath)
  = (String.length fullPath - String.length root)%nat /\
  ~ In backslash (list_ascii_of_string (getRelativePath root fullPath)) /\
  to_forward_slashes (getRelativePath root fullPath) = getRelativePath root fullPath /\
  (~ In backslash (list_ascii_of_string fullPath) ->
   fullPath = take_chars (String.length root) fullPath +:+ getRelativePath root fullPath).
Proof.
  intros _ _. unfold getRelativePath. rewrite js_substring_to_end.
  split; [now rewrite length_to_forward_slashes, length_drop_chars |].
  split; [apply to_forward_slashes_clean |].
  split; [apply to_forward_slashes_idem |].
  intros Hclean. rewrite to_forward_slashes_id.
  - apply take_drop_chars.
  - intros Hin. apply Hclean. now apply In_drop_chars with (String.length root).
Qed.

Lemma after_last_separator_split (s t : string) :
  after_last_separator s = Some t ->
  exists d c, s = d +:+ String c t /\ is_separator c = true.
Proof.
  revert t. induction s as [|c s IH]; intros t; [discriminate |].
  cbn [after_last_separator]. destruct (line_terminator_at (String c s)); [discriminate |].
  destruct (after_last_separator s) as [t'|] eqn:Hs.
  - intros [= <-]. destruct (IH t' eq_refl) as (d & c' & -> & Hc).
    exists (String c d), c'. split; [reflexivity | exact Hc].
  - destruct (is_separator c) eqn:Hc; [| discriminate].
    intros [= <-]. exists EmptyString, c. split; [reflexivity | exact Hc].
Qed.

Lemma single_line_cons (c : ascii) (s : string) :
  single_line (String c s) = true ->
  line_terminator_at (String c s) = false /\ single_line s = true.
Proof.
  cbn [single_line]. intros H. apply andb_prop in H as [H1 H2].
  apply negb_true_iff in H1. auto.
Qed.

Lemma after_last_separator_none (s : string) :
  single_line s = true -> after_last_separator s = None ->
  none_of is_separator s.
Proof.
  unfold none_of. induction s as [|c s IH]; [simpl; tauto |].
  intros Hl. apply single_line_cons in Hl as [Hlt Hl].
  cbn [after_last_separator]. rewrite Hlt.
  destruct (after_last_separator s) as [t'|]; [discriminate |].
  destruct (is_separator c) eqn:Hc; [discriminate |].
  intros _ c' [<- | Hin]; [exact Hc |]. apply IH; auto.
Qed.

Lemma after_last_separator_clean (s t : string) :
  single_line s = true -> after_last_separator s = Some t ->
  none_of is_separator t.
Proof.
  revert t. induction s as [|c s IH]; intros t; [discriminate |].
  intros Hl. apply single_line_cons in Hl as [Hlt Hl].
  cbn [after_last_separator]. rewrite Hlt.
  destruct (after_last_separator s) as [t'|] eqn:Hs.
  - intros [= <-]. apply (IH t'); auto.
  - destruct (is_separator c); [| discriminate]. intros [= <-].
    now apply after_last_separator_none.
Qed.

Lemma append_snoc (d : string) (c : ascii) (t : string) :
  d +:+ String c t = (d +:+ String c EmptyString) +:+ t.
Proof.
  induction d as [|x d IH]; [reflexivity |].
  change (String x (d +:+ String c t) = String x ((d +:+ String c EmptyString) +:+ t)).
  now rewrite IH.
Qed.

Lemma In_append_r (d t : string) (c : ascii) :
  In c (list_ascii_of_string t) -> In c (list_ascii_of_string (d +:+ t)).
Proof.
  induction d as [|x d IH]; [tauto |]. intros H.
  change (In c (x :: list_ascii_of_string (d +:+ t))). right. now apply IH.
Qed.

(** X3.  The name the change notice shows is always an end of the path; for
    a path without line terminator (line feed, carriage return, U+2028,
    U+2029) it is what follows the last slash or backslash (the whole path
    when there is none), so it holds no separator. *)
Theorem strip_directories_basename (path : string) :
  (exists dir, path = dir +:+ strip_directories path /\
     (dir = EmptyString \/
      exists d c, dir = d +:+ String c EmptyString /\ is_separator c = true)) /\
  (single_line path = true -> none_of is_separator (strip_directories path)) /\
  (none_of is_separator path -> strip_directories path = path).
Proof.
  unfold strip_directories. split; [| split].
  - destruct (after_last_separator path) as [t|] eqn:Ht.
    + destruct (after_last_separator_split path t Ht) as (d & c & -> & Hc).
      exists (d +:+ String c EmptyString). split.
      * apply append_snoc.
      * right. eauto.
    + exists EmptyString. split; [reflexivity | now left].
  - intros Hlt. destruct (after_last_separator path) as [t|] eqn:Ht.
    + now apply after_last_separator_clean with path.
    + now apply after_last_separator_none.
  - intros Hsep. destruct (after_last_separator path) as [t|] eqn:Ht; [| reflexivity].
    destruct (after_last_separator_split path t Ht) as (d & c & -> & Hc).
    rewrite (Hsep c) in Hc; [discriminate |].
    apply In_append_r. now left.
Qed.

Lemma strip_directories_basename_witness :
  none_of is_separator (strip_directories "C:\proj\src/css/site.css") /\
  strip_directories "C:\proj\src/css/site.css" = "site.css".
Proof.
  split; [| reflexivity].
  destruct (strip_directories_basename "C:\proj\src/css/site.css") as (_ & Hclean & _).
  apply Hclean. reflexivity.
Defined.

Lemma getRelativePath_counts_only_witness :
  getRelativePath "/home/a" "/proj/src/index.html" = getRelativePath "/proj/b" "/proj/src/index.html" /\
  getRelativePath "/proj/src" "/proj" = EmptyString.
Proof.
  assert (Hascii : forall s, forallb (fun c => negb (non_ascii c)) (list_ascii_of_string s)
                             = true -> none_of non_ascii s).
  { intros s H c Hin. rewrite forallb_forall in H. apply negb_true_iff. now apply H. }
  destruct (getRelativePath_counts_only "/proj/b" "/proj/src/index.html")
    as (_ & Hlen & _); [apply Hascii; reflexivity .. |].
  destruct (getRelativePath_counts_only "/proj/src" "/proj")
    as (_ & _ & Hshort); [apply Hascii; reflexivity .. |].
  split; [apply Hlen; [apply Hascii |]; reflexivity | apply Hshort; simpl; lia].
Defined.

Lemma getRelativePath_shape_witness :
  "/proj/src/index.html"
  = take_chars (String.length "/proj/src") "/proj/src/index.html"
    +:+ getRelativePath "/proj/src" "/proj/src/index.html".
Proof.
  assert (Hascii : forall s, forallb (fun c => negb (non_ascii c)) (list_ascii_of_string s)
                             = true -> none_of non_ascii s).
  { intros s H c Hin. rewrite forallb_forall in H. apply negb_true_iff. now apply H. }
  destruct (getRelativePath_shape "/proj/src" "/proj/src/index.html")
    as (_ & _ & _ & H); [apply Hascii; reflexivity .. |].
  apply H. simpl. intuition discriminate.
Defined.

(** ** The flags *)

Section More.

Variable cfg : config.

(** What a step does to the two ready flags. *)
Lemma step_flags (e : event) (s s' : state) (acts : list action) :
  inv cfg s -> step cfg e s = Ok s' acts ->
  sftp_ready s' = last_conn_event (sftp_ready s) [e] /\
  watcher_ready s' = (watcher_ready s || is_watcherReady e).
Proof.
  intros Hinv Hstep. pose proof (step_cases cfg e s s' acts Hinv Hstep) as H.
  destruct e; cbn [last_conn_event is_watcherReady]; rewrite ?orb_false_r, ?orb_true_r.
  - destruct H as (_ & -> & _). auto.
  - destruct H as (-> & _). auto.
  - destruct H as [[-> _] | [-> _]]; auto.
  - destruct H as (-> & _). auto.
  - destruct H as (st & s1 & _ & Hh & ->). cbn.
    apply on_hash_flags in Hh as [-> ->]. auto.
  - contradiction.
  - destruct H as (due & _ & _ & H).
    apply on_timeout_clients in H as (_ & _ & _ & _ & _ & _ & _ & _ & _ & Hw & Hr & _).
    cbn in Hw, Hr. auto.
  - destruct H as (cl & g & _ & _ & _ & -> & _). auto.
  - destruct H as (cl & _ & -> & _). auto.
  - destruct H as (_ & _ & -> & _). auto.
  - destruct H as (_ & -> & _). auto.
Qed.

Lemma run_flags (tr : list event) (s s' : state) (log : list (Z * event * list action)) :
  inv cfg s -> run cfg tr s = Done s' log ->
  sftp_ready s' = last_conn_event (sftp_ready s) tr /\
  watcher_ready s' = (watcher_ready s || existsb is_watcherReady tr).
Proof.
  revert s log. induction tr as [|e tr IH]; intros s log Hinv Hrun.
  - injection Hrun as <- <-. simpl. now rewrite orb_false_r.
  - apply run_cons in Hrun as (s1 & acts & log1 & Hs & Hr & ->).
    destruct (step_flags e s s1 acts Hinv Hs) as [Hsf Hw].
    destruct (IH s1 log1 (step_inv cfg e s s1 acts Hinv Hs) Hr) as [Hsf' Hw'].
    rewrite Hsf', Hw', Hsf, Hw. split.
    + destruct e; reflexivity.
    + simpl. now rewrite orb_assoc.
Qed.

(** What a step does to the batch. *)
Lemma step_updates (e : event) (s s' : state) (acts : list action) :
  inv cfg s -> step cfg e s = Ok s' acts ->
  updates s' = updates s \/
  (exists p r, updates s' = obj_set p r (updates s)) \/
  updates s' = [].
Proof.
  intros Hinv Hstep. pose proof (step_cases cfg e s s' acts Hinv Hstep) as H.
  destruct e.
  - destruct H as (_ & -> & _). auto.
  - destruct H as (-> & _). auto.
  - destruct H as [[-> _] | [-> _]]; auto.
  - destruct H as (-> & _). auto.
  - destruct H as (st & s1 & _ & Hh & ->). cbn.
    pose proof (on_hash_key cfg _ _ _ _ _ Hh) as Hk.
    destruct (fst (checkAndUpdate (hashes s)
                     (getRelativePath (localPath cfg) (s_path st)) digest)) eqn:Hchk.
    + destruct (watcher_ready s) eqn:Hr.
      * destruct (on_hash_qualifying cfg _ _ s Hk Hchk Hr) as (s2 & a2 & Heq & _ & Hup & _).
        rewrite Heq in Hh. injection Hh as <- <-. right. left. eauto.
      * rewrite (on_hash_baseline cfg _ _ s Hk Hchk Hr) in Hh. injection Hh as <- <-. auto.
    + rewrite (on_hash_unchanged cfg _ _ s Hk Hchk) in Hh. injection Hh as <- <-. auto.
  - contradiction.
  - destruct H as (due & _ & _ & H).
    apply on_timeout_clients in H as (_ & _ & _ & _ & Hup & _). cbn in Hup. auto.
  - destruct H as (cl & g & _ & _ & _ & -> & _). auto.
  - destruct H as (cl & _ & -> & _). auto.
  - destruct H as (_ & _ & -> & _). auto.
  - destruct H as (_ & -> & _). auto.
Qed.

(** What a step does to the armed timers. *)
Lemma step_timer_count (e : event) (s s' : state) (acts : list action) :
  inv cfg s -> step cfg e s = Ok s' acts ->
  timers s' = timers s \/
  timers s' = [(next_timer s, now s + window)] \/
  exists id, timers s' = disarm id (timers s).
Proof.
  intros Hinv Hstep. pose proof (step_cases cfg e s s' acts Hinv Hstep) as H.
  destruct e.
  - destruct H as (_ & -> & _). auto.
  - destruct H as (-> & _). auto.
  - destruct H as [[-> _] | [-> _]]; auto.
  - destruct H as (-> & _). auto.
  - destruct H as (st & s1 & _ & Hh & ->). cbn.
    pose proof (on_hash_key cfg _ _ _ _ _ Hh) as Hk.
    destruct (fst (checkAndUpdate (hashes s)
                     (getRelativePath (localPath cfg) (s_path st)) digest)) eqn:Hchk.
    + destruct (watcher_ready s) eqn:Hr.
      * destruct (on_hash_qualifying cfg _ _ s Hk Hchk Hr)
          as (s2 & a2 & Heq & _ & _ & Htm & _).
        rewrite Heq in Hh. injection Hh as <- <-.
        rewrite (inv_cancel cfg s Hinv) in Htm. auto.
      * rewrite (on_hash_baseline cfg _ _ s Hk Hchk Hr) in Hh. injection Hh as <- <-. auto.
    + rewrite (on_hash_unchanged cfg _ _ s Hk Hchk) in Hh. injection Hh as <- <-. auto.
  - contradiction.
  - destruct H as (due & _ & _ & H).
    apply on_timeout_clients in H as (_ & _ & _ & _ & _ & _ & Htm & _). cbn in Htm. eauto.
  - destruct H as (cl & g & _ & _ & _ & -> & _). auto.
  - destruct H as (cl & _ & -> & _). auto.
  - destruct H as (_ & _ & -> & _). auto.
  - destruct H as (_ & -> & _). auto.
Qed.

(** What a step does to the ledger. *)
Lemma step_hashes (e : event) (s s' : state) (acts : list action) :
  inv cfg s -> step cfg e s = Ok s' acts ->
  hashes s' = hashes s \/ exists k v, hashes s' = <[k := v]> (hashes s).
Proof.
  intros Hinv Hstep.
  destruct (is_streamEnd e) eqn:He.
  - destruct e; try discriminate He.
    pose proof (step_cases cfg _ s s' acts Hinv Hstep) as (st & s1 & _ & Hh & ->). cbn.
    apply on_hash_frame in Hh as (Hh & _). rewrite Hh.
    destruct (checkAndUpdate_snd (hashes s)
                (getRelativePath (localPath cfg) (s_path st)) digest) as [-> | [_ ->]];
      eauto.
  - left. now apply step_ledger with cfg e acts.
Qed.

(** The calls of [connect] of a step: one for a new client, one for an
    error, with the settings of the configuration. *)
Lemma step_connects (e : event) (s s' : state) (acts : list action) :
  inv cfg s -> step cfg e s = Ok s' acts ->
  connects acts
  = match e with
    | TimerFire _ => [(length (clients s), sftp cfg)]
    | ConnError c _ => [(c, sftp cfg)]
    | _ => []
    end.
Proof.
  intros Hinv Hstep. pose proof (step_cases cfg e s s' acts Hinv Hstep) as H.
  destruct e.
  - destruct H as (_ & _ & ->). reflexivity.
  - unfold step, on_watcher_ready in Hstep. injection Hstep as _ <-. reflexivity.
  - destruct H as [[_ ->] | [_ ->]]; reflexivity.
  - destruct H as (_ & ->). reflexivity.
  - destruct H as (st & s1 & _ & Hh & _).
    destruct (on_hash_acts cfg _ _ _ _ _ Hh) as [-> | [(msg & ->) | (t0 & msg & ->)]];
      reflexivity.
  - contradiction.
  - destruct H as (due & _ & _ & H).
    apply on_timeout_clients in H as (_ & _ & -> & _). reflexivity.
  - destruct H as (cl & g & _ & _ & _ & _ & ->). reflexivity.
  - destruct H as (cl & _ & _ & ->). reflexivity.
  - destruct H as (Hc & _). simpl in Hstep.
    rewrite bool_decide_eq_true_2 in Hstep by exact Hc. unfold on_sftp in Hstep.
    assert (Hfp : forall t u, connects (fastPut_all cfg t u) = []).
    { intros t u. revert t. induction u as [|[p r] u IH]; intros t; [reflexivity |].
      cbn. apply IH. }
    destruct (obj_has "hasOwnProperty" _); [discriminate Hstep |].
    destruct err as [x|]; [destruct (updates _) eqn:Hu; [| discriminate] |];
      injection Hstep as _ <-; unfold connects; cbn [app omap list_omap is_connect];
      rewrite ?omap_app; fold (connects (fastPut_all cfg (next_transfer s) []));
      fold (connects (fastPut_all cfg (next_transfer s) (updates s)));
      cbn [updates set_sessions transfers next_transfer];
      try (fold (connects (fastPut_all cfg (next_transfer s) (updates s))));
      rewrite ?Hfp; reflexivity.
  - destruct H as (_ & _ & ->). now destruct err.
Qed.

End More.

Lemma sftp_ready_is_last_flag (cfg : config) (tr : list event) (s : state)
    (log : list (Z * event * list action)) :
  run cfg tr init = Done s log -> sftp_ready s = last_conn_event false tr.
Proof.
  intros Hrun. now destruct (run_flags cfg tr init s log (inv_init cfg) Hrun).
Qed.

Lemma watcher_ready_iff (cfg : config) (tr : list event) (s : state)
    (log : list (Z * event * list action)) :
  run cfg tr init = Done s log -> watcher_ready s = true <-> In WatcherReady tr.
Proof.
  intros Hrun. destruct (run_flags cfg tr init s log (inv_init cfg) Hrun) as [_ Hw].
  rewrite Hw. simpl. rewrite existsb_exists. split.
  - intros (e & Hin & He). destruct e; try discriminate He. exact Hin.
  - intros Hin. exists WatcherReady. split; [exact Hin | reflexivity].
Qed.

(** X4.  [sftp_ready] is one flag for all connections: after any run it is
    what the last ['ready'] or ['error'] of any client left, [false] when
    there was none; it says nothing about the client [conn] holds. *)
Theorem sftp_ready_is_last_event (cfg : config) (tr : list event) (s : state)
    (log : list (Z * event * list action)) :
  run cfg tr init = Done s log ->
  sftp_ready s = last_conn_event false tr /\
  forall c err s' acts,
    step cfg (ConnError c err) s = Ok s' acts -> sftp_ready s' = false.
Proof.
  intros Hrun. split; [now apply sftp_ready_is_last_flag with cfg log |].
  intros c err s' acts Hstep.
  pose proof (run_inv cfg tr init s log (inv_init cfg) Hrun) as Hinv.
  now destruct (step_flags cfg _ s s' acts Hinv Hstep) as [-> _].
Qed.

Lemma sftp_ready_is_last_event_witness :
  sftp_ready (state_of (run cfg0 tr_both_failed init)) = false /\
  connected <$> (clients (state_of (run cfg0 tr_both_failed init)) !! 0%nat) = Some true.
Proof.
  assert (Hrun : run cfg0 tr_both_failed init
                 = Done (state_of (run cfg0 tr_both_failed init))
                        (log_of (run cfg0 tr_both_failed init)))
    by (vm_compute; reflexivity).
  split; [| vm_compute; reflexivity].
  rewrite (proj1 (sftp_ready_is_last_event cfg0 tr_both_failed _ _ Hrun)). reflexivity.
Defined.

(** X5.  [watcher_ready] is set once and never cleared: after a run it is
    [true] exactly when the watcher has signalled ready in it, and it stays
    [true] along every continuation. *)
Theorem watcher_ready_once (cfg : config) (tr : list event) (s : state)
    (log : list (Z * event * list action)) :
  run cfg tr init = Done s log ->
  (watcher_ready s = true <-> In WatcherReady tr) /\
  forall tr' s' log',
    run cfg tr' s = Done s' log' -> watcher_ready s = true -> watcher_ready s' = true.
Proof.
  intros Hrun. pose proof (run_inv cfg tr init s log (inv_init cfg) Hrun) as Hinv.
  split.
  - now apply watcher_ready_iff with cfg log.
  - intros tr' s' log' Hrun' Ht.
    destruct (run_flags cfg tr' s s' log' Hinv Hrun') as [_ Hw']. now rewrite Hw', Ht.
Qed.

Lemma watcher_ready_once_witness :
  watcher_ready (state_of (run cfg0 tr_two init)) = true.
Proof.
  assert (Hrun : run cfg0 tr_two init
                 = Done (state_of (run cfg0 tr_two init)) (log_of (run cfg0 tr_two init)))
    by (vm_compute; reflexivity).
  destruct (watcher_ready_once cfg0 tr_two _ _ Hrun) as [Hiff _].
  apply Hiff. vm_compute. now left.
Defined.

(** ** Timers and batch *)

(** X6.  At most one debounce timer is armed at any time: it is the one the
    variable [timeout] holds, and it is due within a window. *)
Theorem one_timer_armed (cfg : config) (tr : list event) (s : state)
    (log : list (Z * event * list action)) :
  run cfg tr init = Done s log ->
  timers s = [] \/
  exists t due, timers s = [(t, due)] /\ timeout s = Some t /\ due <= now s + window.
Proof.
  intros Hrun.
  destruct (run_ind cfg
              (fun s => inv cfg s /\ (length (timers s) <= 1)%nat /\
                        forall x, x ∈ timers s -> snd x <= now s + window)
              (fun _ _ _ => True))
    with (tr := tr) (s := init) (s' := s) (log := log) as [(Hinv & Hlen & Hdue) _].
  - intros e s0 s1 acts (Hinv & Hlen & Hdue) Hstep.
    split; [| exact I]. split; [now apply step_inv with e s0 acts |].
    destruct (step_timers cfg e s0 s1 acts Hinv Hstep) as (Hmono & Hnew & _). split.
    + destruct (step_timer_count cfg e s0 s1 acts Hinv Hstep) as [-> | [-> | (id & ->)]].
      * exact Hlen.
      * simpl. lia.
      * unfold disarm. etransitivity; [apply length_filter | exact Hlen].
    + intros x Hx. destruct (Hnew x Hx) as [Hold | ->]; [| lia].
      specialize (Hdue x Hold). lia.
  - split; [apply inv_init |]. split; [simpl; lia |].
    intros x Hx. now apply elem_of_nil in Hx.
  - exact Hrun.
  - destruct (timers s) as [|[t due] [|y l]] eqn:Ht; [now left | | simpl in Hlen; lia].
    right. exists t, due. split; [reflexivity |]. split.
    + apply (inv_timers _ _ Hinv (t, due)). rewrite Ht. apply elem_of_cons. now left.
    + apply (Hdue (t, due)). apply elem_of_cons. now left.
Qed.

Lemma one_timer_armed_witness :
  timers (state_of (run cfg0 (tr_burst ++ [StreamEnd 1 digest_b]) init))
  = [(1%nat, 4999 + 5000)].
Proof.
  assert (Hrun : run cfg0 (tr_burst ++ [StreamEnd 1 digest_b]) init
                 = Done (state_of (run cfg0 (tr_burst ++ [StreamEnd 1 digest_b]) init))
                        (log_of (run cfg0 (tr_burst ++ [StreamEnd 1 digest_b]) init)))
    by (vm_compute; reflexivity).
  destruct (one_timer_armed cfg0 _ _ _ Hrun) as [Hnone | (t & due & Hone & _)].
  - vm_compute in Hnone. discriminate Hnone.
  - vm_compute. reflexivity.
Defined.

Lemma obj_set_keys_eq (k v : string) (o : list (string * string)) :
  k <> "__proto__" -> array_index k = None ->
  obj_keys (obj_set k v o)
  = if decide (k ∈ obj_keys o) then obj_keys o else (obj_keys o ++ [k])%list.
Proof.
  intros Hp Hi. unfold obj_set. destruct (String.eqb_spec k "__proto__"); [congruence |].
  rewrite Hi. destruct (obj_has k o) eqn:Hhas.
  - apply obj_has_spec in Hhas. rewrite obj_replace_keys.
    now destruct (decide (k ∈ obj_keys o)).
  - destruct (decide (k ∈ obj_keys o)) as [Hin | _].
    + apply obj_has_spec in Hin. congruence.
    + unfold obj_keys. now rewrite map_app.
Qed.

Lemma obj_set_NoDup (k v : string) (o : list (string * string)) :
  NoDup (obj_keys o) -> NoDup (obj_keys (obj_set k v o)).
Proof.
  intros Hnd.
  destruct (obj_set_perm k v o) as [-> | [(_ & _ & -> & _) | (_ & Hnin & Hs)]];
    [exact Hnd .. |].
  rewrite (obj_keys_perm _ _ Hs). apply NoDup_cons. split; [exact Hnin | exact Hnd].
Qed.

(** X7.  However often a file changes before a drain, it is in the batch
    once: the paths of [updates] are pairwise different in every state, and
    so are the local paths of the transfers a drain starts. *)
Theorem batch_has_no_duplicate (cfg : config) (tr : list event) (s : state)
    (log : list (Z * event * list action)) :
  run cfg tr init = Done s log ->
  NoDup (obj_keys (updates s)) /\
  forall c err s' acts,
    step cfg (SftpCallback c err) s = Ok s' acts -> NoDup (map fst (fastPuts acts)).
Proof.
  intros Hrun.
  destruct (run_ind cfg (fun s => inv cfg s /\ NoDup (obj_keys (updates s)))
              (fun _ _ _ => True))
    with (tr := tr) (s := init) (s' := s) (log := log) as [(Hinv & Hnd) _].
  - intros e s0 s1 acts (Hinv & Hnd) Hstep.
    split; [| exact I]. split; [now apply step_inv with e s0 acts |].
    destruct (step_updates cfg e s0 s1 acts Hinv Hstep) as [-> | [(p & r & ->) | ->]].
    + exact Hnd.
    + now apply obj_set_NoDup.
    + apply NoDup_nil_2.
  - split; [apply inv_init | apply NoDup_nil_2].
  - exact Hrun.
  - split; [exact Hnd |]. intros c err s' acts Hstep.
    pose proof (step_batch cfg _ s s' acts Hinv Hstep) as [Hfp _].
    now rewrite Hfp, obj_keys_destination.
Qed.

Lemma batch_has_no_duplicate_witness :
  updates (state_of (run cfg0 (tr_burst ++ [StreamEnd 1 digest_b]) init))
  = [("/proj/src/index.html", "/index.html")] /\
  NoDup (obj_keys (updates (state_of (run cfg0 (tr_burst ++ [StreamEnd 1 digest_b]) init)))).
Proof.
  assert (Hrun : run cfg0 (tr_burst ++ [StreamEnd 1 digest_b]) init
                 = Done (state_of (run cfg0 (tr_burst ++ [StreamEnd 1 digest_b]) init))
                        (log_of (run cfg0 (tr_burst ++ [StreamEnd 1 digest_b]) init)))
    by (vm_compute; reflexivity).
  split; [vm_compute; reflexivity |].
  exact (proj1 (batch_has_no_duplicate cfg0 _ _ _ Hrun)).
Defined.

(** ** The ledger, again *)

(** X8.  Whichever hash callback runs last for a path wins: when a stream
    ends with a digest, and the relative path of its file is neither
    [length] nor [__proto__], that digest is the fingerprint of the
    relative path afterwards, every other fingerprint is as before, and the
    stream is gone.  With two hashings of one file in flight this is the
    one that ends last, not the one that started last. *)
Theorem ledger_last_callback_wins (cfg : config) (s : state) (id : nat) (st : stream)
    (digest : string) :
  reachable cfg s ->
  streams s !! id = Some st ->
  digest <> EmptyString ->
  getRelativePath (localPath cfg) (s_path st) <> "length" ->
  getRelativePath (localPath cfg) (s_path st) <> "__proto__" ->
  exists s' acts,
    step cfg (StreamEnd id digest) s = Ok s' acts /\
    hashes s' !! getRelativePath (localPath cfg) (s_path st) = Some digest /\
    (forall k, k <> getRelativePath (localPath cfg) (s_path st) ->
       hashes s' !! k = hashes s !! k) /\
    streams s' !! id = None.
Proof.
  intros Hreach Hst Hne Hk Hp. pose proof (reachable_inv cfg s Hreach) as Hinv.
  destruct (on_hash_total cfg (s_path st) digest s Hk) as (s1 & acts & Hh).
  assert (Hstep : step cfg (StreamEnd id digest) s
                  = Ok (set_streams (delete id (streams s1)) (next_stream s1) s1) acts).
  { rewrite (step_streamEnd cfg s id st digest Hinv Hst), Hh. simpl.
    now rewrite app_nil_r. }
  eexists _, _. split; [exact Hstep |]. cbn.
  apply on_hash_frame in Hh as (Hh & _). rewrite Hh.
  split; [| split; [| apply lookup_delete_eq]].
  - destruct (fst (checkAndUpdate (hashes s)
                     (getRelativePath (localPath cfg) (s_path st)) digest)) eqn:Hchk.
    + rewrite checkAndUpdate_plain in * by exact Hp.
      destruct (negb _ || _); [| discriminate]. cbn. apply lookup_insert_eq.
    + pose proof (proj1 (checkAndUpdate_false _ _ _ Hp Hne) Hchk) as Hstored.
      rewrite checkAndUpdate_plain in * by exact Hp.
      destruct (negb _ || _); [discriminate |]. exact Hstored.
  - intros k Hkne. rewrite checkAndUpdate_plain by exact Hp.
    destruct (negb _ || _); cbn; [| reflexivity].
    now apply lookup_insert_ne.
Qed.

Lemma ledger_last_callback_wins_witness :
  hashes (state_of (run cfg0 tr_race init)) !! "/a.css" = Some digest_b /\
  exists s' acts,
    step cfg0 (StreamEnd 0 digest_a) (state_of (run cfg0 tr_race init)) = Ok s' acts /\
    hashes s' !! "/a.css" = Some digest_a.
Proof.
  split; [vm_compute; reflexivity |].
  assert (Hreach : reachable cfg0 (state_of (run cfg0 tr_race init))).
  { exists tr_race, (log_of (run cfg0 tr_race init)). vm_compute. reflexivity. }
  destruct (ledger_last_callback_wins cfg0 _ 0%nat
              {| s_path := "/proj/src/a.css"; s_on := stream_listeners |} digest_a Hreach)
    as (s' & acts & Hstep & Hh & _);
    [vm_compute; reflexivity | discriminate | vm_compute; discriminate .. |].
  exists s', acts. split; [exact Hstep | exact Hh].
Defined.

(** X9.  The ledger never loses a path: along any run a path that has a
    fingerprint keeps one.  An event that is neither ["add"] nor ["change"]
    (a removed file, a directory) runs no code of the script: nothing is
    hashed, batched or forgotten. *)
Theorem ledger_never_forgets (cfg : config) (s : state) :
  reachable cfg s ->
  (forall tr s' log k,
     run cfg tr s = Done s' log -> is_Some (hashes s !! k) -> is_Some (hashes s' !! k)) /\
  (forall ev path,
     ev <> "add" -> ev <> "change" -> step cfg (WatcherAll ev path) s = Ok s []).
Proof.
  intros Hreach. pose proof (reachable_inv cfg s Hreach) as Hinv. split.
  - intros tr s' log k Hrun Hk.
    destruct (run_ind cfg (fun s => inv cfg s /\ is_Some (hashes s !! k)) (fun _ _ _ => True))
      with (tr := tr) (s := s) (s' := s') (log := log) as [(_ & H) _]; auto.
    intros e s0 s1 acts (Hinv0 & Hk0) Hstep. split; [| exact I].
    split; [now apply step_inv with e s0 acts |].
    destruct (step_hashes cfg e s0 s1 acts Hinv0 Hstep) as [-> | (k' & v & ->)];
      [exact Hk0 |].
    apply lookup_insert_is_Some'. now right.
  - intros ev path Hadd Hchange. simpl. unfold on_all. simpl.
    destruct (String.eqb_spec ev "add") as [-> | _]; [congruence |].
    destruct (String.eqb_spec ev "change") as [-> | _]; [congruence | reflexivity].
Qed.

Lemma ledger_never_forgets_witness :
  step cfg0 (WatcherAll "unlink" "/proj/src/a.css") (state_of (run cfg0 tr_failed init))
  = Ok (state_of (run cfg0 tr_failed init)) [] /\
  is_Some (hashes (state_of (run cfg0 (tr_failed ++ [WatcherAll "unlink" "/proj/src/a.css";
                                                     Elapse 1000]) init)) !! "/a.css").
Proof.
  assert (Hreach : reachable cfg0 (state_of (run cfg0 tr_failed init))).
  { exists tr_failed, (log_of (run cfg0 tr_failed init)). vm_compute. reflexivity. }
  destruct (ledger_never_forgets cfg0 _ Hreach) as [Hkeep Hskip].
  split; [apply Hskip; discriminate |].
  pose (tr' := [WatcherAll "unlink" "/proj/src/a.css"; Elapse 1000]).
  assert (Hrun : run cfg0 tr' (state_of (run cfg0 tr_failed init))
                 = Done (state_of (run cfg0 (tr_failed ++ tr') init))
                        (log_of (run cfg0 tr' (state_of (run cfg0 tr_failed init)))))
    by (vm_compute; reflexivity).
  apply (Hkeep tr' _ _ "/a.css" Hrun). vm_compute. eexists. reflexivity.
Defined.

(** ** Sessions and connections *)

Lemma run_connects (cfg : config) (tr : list event) (s s' : state)
    (log : list (Z * event * list action)) :
  inv cfg s -> run cfg tr s = Done s' log ->
  length (connects (map snd (actions_of log))) = (expiries tr + conn_errors tr)%nat /\
  forall x, x ∈ connects (map snd (actions_of log)) ->
    snd x = sftp cfg /\ (fst x < length (clients s'))%nat.
Proof.
  revert s log. induction tr as [|e tr IH]; intros s log Hinv Hrun.
  - injection Hrun as <- <-. split; [reflexivity |].
    intros x Hx. now apply elem_of_nil in Hx.
  - apply run_cons in Hrun as (s1 & acts & log1 & Hs & Hr & ->).
    pose proof (step_inv cfg e s s1 acts Hinv Hs) as Hinv1.
    destruct (IH s1 log1 Hinv1 Hr) as [Hlen Hall].
    destruct (run_clients cfg tr s1 s' log1 Hinv1 Hr) as (Hgrow & _).
    pose proof (step_connects cfg e s s1 acts Hinv Hs) as Hc.
    pose proof (step_clients cfg e s s1 acts Hinv Hs) as Hcl.
    pose proof (step_cases cfg e s s1 acts Hinv Hs) as Hcase.
    rewrite actions_of_cons. unfold connects in *. rewrite omap_app, length_app, Hlen, Hc.
    unfold expiries, conn_errors. simpl List.filter. split.
    + destruct e; simpl; lia.
    + intros x Hx. apply elem_of_app in Hx as [Hx | Hx]; [| now apply Hall].
      destruct e; try (now apply elem_of_nil in Hx).
      * apply list_elem_of_singleton in Hx. subst x. simpl. split; [reflexivity |].
        simpl in Hcl. destruct Hcl as (Hcl & _). rewrite Hcl, length_app in Hgrow.
        simpl in Hgrow. lia.
      * apply list_elem_of_singleton in Hx. subst x. simpl. split; [reflexivity |].
        destruct Hcase as (cl & Hlook & _). apply lookup_lt_Some in Hlook.
        simpl in Hcl. destruct Hcl as (Hcl & _). lia.
Qed.

(** X11.  The script calls [connect] once for every client it makes and
    once more for every connection error, never otherwise: in any run the
    calls are as many as timer expiries and errors together, each on a
    client the script has made and with the settings of the
    configuration. *)
Theorem connect_once_per_error (cfg : config) (tr : list event) (s : state)
    (log : list (Z * event * list action)) :
  run cfg tr init = Done s log ->
  length (connects (map snd (actions_of log))) = (expiries tr + conn_errors tr)%nat /\
  forall x, x ∈ connects (map snd (actions_of log)) ->
    snd x = sftp cfg /\ (fst x < length (clients s))%nat.
Proof. intros Hrun. apply run_connects with init; [apply inv_init | exact Hrun]. Qed.

Lemma connect_once_per_error_witness :
  length (connects (map snd (actions_of (log_of (run cfg0 tr_both_failed init))))) = 3%nat.
Proof.
  assert (Hrun : run cfg0 tr_both_failed init
                 = Done (state_of (run cfg0 tr_both_failed init))
                        (log_of (run cfg0 tr_both_failed init)))
    by (vm_compute; reflexivity).
  destruct (connect_once_per_error cfg0 tr_both_failed _ _ Hrun) as [Hlen _].
  rewrite Hlen. vm_compute. reflexivity.
Defined.

(** ** Shutdown *)

Lemma sftp_ready_has_client (cfg : config) (tr : list event) (s : state)
    (log : list (Z * event * list action)) :
  run cfg tr init = Done s log -> sftp_ready s = true -> clients s <> [].
Proof.
  intros Hrun.
  destruct (run_ind cfg (fun s => inv cfg s /\ (sftp_ready s = true -> clients s <> []))
              (fun _ _ _ => True))
    with (tr := tr) (s := init) (s' := s) (log := log) as [(_ & H) _];
    [| split; [apply inv_init | discriminate] | exact Hrun | exact H].
  intros e s0 s1 acts (Hinv & Hc) Hstep. split; [| exact I].
  split; [now apply step_inv with e s0 acts |].
  destruct (step_flags cfg e s0 s1 acts Hinv Hstep) as [Hsf _].
  pose proof (step_clients cfg e s0 s1 acts Hinv Hstep) as Hcl.
  pose proof (step_cases cfg e s0 s1 acts Hinv Hstep) as Hcase.
  assert (Hlen : forall l : list client, (0 < length l)%nat -> l <> [])
    by (intros [|x l]; simpl; [lia | discriminate]).
  assert (Hpos : forall l : list client, l <> [] -> (0 < length l)%nat)
    by (intros [|x l]; simpl; [congruence | lia]).
  rewrite Hsf. destruct e; cbn [last_conn_event is_timerFire] in *;
    first
      [ intros Ht; discriminate Ht
      | destruct Hcl as (Hcl & _); intros Ht; apply Hlen; rewrite Hcl;
        apply Hpos; now apply Hc
      | destruct Hcl as (Hcl & _); intros Ht; rewrite Hcl; now destruct (clients s0)
      | intros _; destruct Hcase as (cl & g & Hlook & _); apply lookup_lt_Some in Hlook;
        destruct Hcl as (Hcl & _); apply Hlen; lia ].
Qed.

(** X12.  In every state the script can be in, [SIGINT] ends in
    [process.exit()] and throws nothing.  It ends one connection at most,
    the latest client made, and does so exactly when the last connection
    event of any client was ['ready']; clients made earlier are left as
    they are.  It closes the watcher exactly when the watcher has
    signalled ready. *)
Theorem sigint_exits (cfg : config) (tr : list event) (s : state)
    (log : list (Z * event * list action)) :
  run cfg tr init = Done s log ->
  exists acts,
    on_sigint s = Exits acts /\
    last acts = Some ProcessExit /\
    (forall c, In (ConnEnd c) acts <->
               last_conn_event false tr = true /\ S c = length (clients s)) /\
    (In WatcherClose acts <-> In WatcherReady tr).
Proof.
  intros Hrun.
  destruct (run_clients cfg tr init s log (inv_init cfg) Hrun) as (Hlen & _ & Hconn).
  pose proof (sftp_ready_has_client cfg tr s log Hrun) as Hhas.
  pose proof (sftp_ready_is_last_flag cfg tr s log Hrun) as Hflag.
  pose proof (watcher_ready_iff cfg tr s log Hrun) as Hw.
  cbn in Hlen, Hconn. unfold on_sigint. rewrite <- Hflag.
  destruct (sftp_ready s) eqn:Hsf.
  - assert (Hg : conn s = Some (length (clients s) - 1)%nat /\ (0 < length (clients s))%nat).
    { specialize (Hhas eq_refl). rewrite Hlen in *. destruct (expiries tr); [| split; [exact Hconn | lia]].
      destruct (clients s); [congruence | discriminate Hlen]. }
    destruct Hg as [Hg Hpos]. rewrite Hg.
    destruct (watcher_ready s) eqn:Hwr; eexists; (split; [reflexivity |]);
      (split; [reflexivity |]); split.
    + intros c. simpl. split.
      * intros H. repeat (destruct H as [H | H]; try discriminate H); [| contradiction].
        injection H as <-. split; [reflexivity | lia].
      * intros [_ Hc]. right. right. left. f_equal. lia.
    + rewrite <- Hw. simpl. intuition.
    + intros c. simpl. split.
      * intros H. repeat (destruct H as [H | H]; try discriminate H); [| contradiction].
        injection H as <-. split; [reflexivity | lia].
      * intros [_ Hc]. right. right. left. f_equal. lia.
    + rewrite <- Hw. simpl. split; [| discriminate].
      intros H. repeat (destruct H as [H | H]; try discriminate H). contradiction.
  - destruct (watcher_ready s) eqn:Hwr; eexists; (split; [reflexivity |]);
      (split; [reflexivity |]); split.
    + intros c. simpl. split; [| intros [H _]; discriminate H].
      intros H. repeat (destruct H as [H | H]; try discriminate H). contradiction.
    + rewrite <- Hw. simpl. intuition.
    + intros c. simpl. split; [| intros [H _]; discriminate H].
      intros H. repeat (destruct H as [H | H]; try discriminate H). contradiction.
    + rewrite <- Hw. simpl. split; [| discriminate].
      intros H. repeat (destruct H as [H | H]; try discriminate H). contradiction.
Qed.

Lemma sigint_exits_witness :
  on_sigint (state_of (run cfg0 tr_both init))
  = Exits [ExitInfo "Shutting down..."; ExitInfo "Closing SFTP connection..."; ConnEnd 1;
           ExitInfo "Closing watcher..."; WatcherClose;
           ExitInfo "Exiting application..."; ProcessExit] /\
  connected <$> (clients (state_of (run cfg0 tr_both init)) !! 0%nat) = Some true /\
  connected <$> (clients (state_of (run cfg0 tr_both init)) !! 1%nat) = Some false.
Proof.
  assert (Hrun : run cfg0 tr_both init
                 = Done (state_of (run cfg0 tr_both init)) (log_of (run cfg0 tr_both init)))
    by (vm_compute; reflexivity).
  destruct (sigint_exits cfg0 tr_both _ _ Hrun) as (acts & Heq & _).
  split; [| split; vm_compute; reflexivity].
  rewrite Heq. vm_compute in Heq. injection Heq as <-. reflexivity.
Defined.

(** ** What is sent, and when *)

Lemma obj_set_key_inv (k v : string) (o : list (string * string)) (p : string) :
  p ∈ obj_keys (obj_set k v o) -> p = k \/ p ∈ obj_keys o.
Proof.
  destruct (obj_set_perm k v o) as [-> | [(_ & _ & -> & _) | (_ & _ & Hs)]];
    [now right .. |].
  rewrite (obj_keys_perm _ _ Hs). intros H. apply elem_of_cons in H as [H | H]; auto.
Qed.

(** Where the entries of the batch and the open streams of a step come
    from. *)
Lemma step_provenance (cfg : config) (e : event) (s s' : state) (acts : list action) :
  inv cfg s -> step cfg e s = Ok s' acts ->
  (forall p, p ∈ obj_keys (updates s') ->
     p ∈ obj_keys (updates s) \/ exists id st, streams s !! id = Some st /\ s_path st = p) /\
  (forall id st, streams s' !! id = Some st ->
     streams s !! id = Some st \/ watched_path e = Some (s_path st)).
Proof.
  intros Hinv Hstep. pose proof (step_cases cfg e s s' acts Hinv Hstep) as H.
  destruct e.
  - destruct H as (_ & -> & _). auto.
  - destruct H as (-> & _). auto.
  - simpl in Hstep. unfold on_all in Hstep. cbn [watched_path].
    destruct (existsb _ _); injection Hstep as <- <-; [| auto].
    split; [auto |]. cbn. intros id st Hst.
    apply lookup_insert_Some in Hst as [[_ <-] | [_ Hst]]; auto.
  - destruct H as (-> & _). auto.
  - destruct H as (st & s1 & Hst & Hh & ->). cbn. split.
    + intros p Hp.
      pose proof (on_hash_key cfg _ _ _ _ _ Hh) as Hk.
      destruct (fst (checkAndUpdate (hashes s)
                       (getRelativePath (localPath cfg) (s_path st)) digest)) eqn:Hchk.
      * destruct (watcher_ready s) eqn:Hr.
        -- destruct (on_hash_qualifying cfg _ _ s Hk Hchk Hr) as (s2 & a2 & Heq & _ & Hup & _).
           rewrite Heq in Hh. injection Hh as <- <-. rewrite Hup in Hp.
           apply obj_set_key_inv in Hp as [-> | Hp]; [right; eauto | now left].
        -- rewrite (on_hash_baseline cfg _ _ s Hk Hchk Hr) in Hh. injection Hh as <- <-.
           now left.
      * rewrite (on_hash_unchanged cfg _ _ s Hk Hchk) in Hh. injection Hh as <- <-. now left.
    + intros id' st' Hst'. apply lookup_delete_Some in Hst' as [_ Hst'].
      apply on_hash_frame in Hh as (_ & _ & _ & Hstr & _). rewrite Hstr in Hst'. now left.
  - contradiction.
  - destruct H as (due & _ & _ & H).
    apply on_timeout_clients in H
      as (_ & _ & _ & _ & Hup & _ & _ & _ & _ & _ & _ & Hstr & _).
    cbn in Hup, Hstr. rewrite Hup, Hstr. auto.
  - destruct H as (cl & g & _ & _ & _ & -> & _). auto.
  - destruct H as (cl & _ & -> & _). auto.
  - destruct H as (_ & _ & -> & _). cbn. split; [| auto].
    intros p Hp. now apply elem_of_nil in Hp.
  - destruct H as (_ & -> & _). auto.
Qed.

Lemma step_transfers_from_batch (cfg : config) (e : event) (s s' : state)
    (acts : list action) :
  inv cfg s -> step cfg e s = Ok s' acts ->
  forall h l r, FastPut h l r ∈ acts -> l ∈ obj_keys (updates s).
Proof.
  intros Hinv Hstep h l r Hin. apply elem_of_fastPuts in Hin.
  pose proof (step_batch cfg e s s' acts Hinv Hstep) as Hb.
  destruct (is_sftpCallback e).
  - destruct Hb as [Hfp _]. rewrite Hfp in Hin.
    apply list_elem_of_In, in_map_iff in Hin as ([p rel] & [= <- _] & Hp).
    unfold obj_keys. apply list_elem_of_In, in_map_iff. exists (p, rel).
    split; [reflexivity | exact Hp].
  - destruct Hb as [Hfp _]. rewrite Hfp in Hin. now apply elem_of_nil in Hin.
Qed.

Lemma run_provenance (cfg : config) (tr : list event) (s s' : state)
    (log : list (Z * event * list action)) (R : string -> Prop) :
  inv cfg s ->
  (forall p, p ∈ obj_keys (updates s) -> R p) ->
  (forall id st, streams s !! id = Some st -> R (s_path st)) ->
  run cfg tr s = Done s' log ->
  forall t h l r, (t, FastPut h l r) ∈ actions_of log -> R l \/ l ∈ watched tr.
Proof.
  revert s log R. induction tr as [|e tr IH]; intros s log R Hinv Hup Hst Hrun t h l r Hin.
  - injection Hrun as <- <-. now apply elem_of_nil in Hin.
  - apply run_cons in Hrun as (s1 & acts & log1 & Hs & Hr & ->).
    simpl in Hin. apply elem_of_app in Hin as [Hin | Hin].
    + apply list_elem_of_In, in_map_iff in Hin as (a & [= _ ->] & Ha).
      left. apply Hup. apply (step_transfers_from_batch cfg e s s1 acts Hinv Hs h l r).
      now apply list_elem_of_In.
    + destruct (step_provenance cfg e s s1 acts Hinv Hs) as [Hup1 Hst1].
      destruct (IH s1 log1 (fun p => R p \/ watched_path e = Some p)
                  (step_inv cfg e s s1 acts Hinv Hs)) with (t := t) (h := h) (l := l) (r := r)
        as [[HR | Hw] | Hw]; try exact Hr; try exact Hin.
      * intros p Hp. destruct (Hup1 p Hp) as [Hold | (id & st & Hlook & <-)]; left; eauto.
      * intros id st Hlook.
        destruct (Hst1 id st Hlook) as [Hold | Hnew]; [left; eauto | now right].
      * now left.
      * right. unfold watched. simpl. rewrite Hw. apply elem_of_cons. now left.
      * right. unfold watched. simpl. destruct (watched_path e); [| exact Hw].
        apply elem_of_cons. now right.
Qed.

(** X13.  The script sends nothing it was not told about: the local path of
    every transfer of a run is a path the watcher has reported as added or
    changed earlier in that run. *)
Theorem uploads_were_reported (cfg : config) (tr : list event) (s : state)
    (log : list (Z * event * list action)) (t : Z) (h : nat) (local remote : string) :
  run cfg tr init = Done s log ->
  (t, FastPut h local remote) ∈ actions_of log ->
  local ∈ watched tr.
Proof.
  intros Hrun Hin.
  destruct (run_provenance cfg tr init s log (fun _ => False) (inv_init cfg))
    with (t := t) (h := h) (l := local) (r := remote) as [[] | Hw];
    [| | exact Hrun | exact Hin | exact Hw].
  - intros p Hp. now apply elem_of_nil in Hp.
  - intros id st Hst. simpl in Hst. now rewrite lookup_empty in Hst.
Qed.

Lemma uploads_were_reported_witness :
  "/proj/src/index.html" ∈ watched tr_index.
Proof.
  assert (Hrun : run cfg0 tr_index init
                 = Done (state_of (run cfg0 tr_index init)) (log_of (run cfg0 tr_index init)))
    by (vm_compute; reflexivity).
  assert (Hin : (7000, FastPut 0 "/proj/src/index.html" "/var/www/app/index.html")
                ∈ actions_of (log_of (run cfg0 tr_index init))).
  { apply list_elem_of_In. vm_compute. repeat ((left; reflexivity) || right). }
  exact (uploads_were_reported cfg0 tr_index _ _ 7000 0%nat _ _ Hrun Hin).
Defined.





(** X15.  A qualifying change of a path that is in the batch already
    leaves the paths of the batch and their order as they are; a new path
    goes to the end, unless it is the text of an array index (which the
    object keeps in front, in ascending order) or [__proto__] (which the
    object does not keep).  So, such paths apart, a drain starts its
    transfers in the order in which the files first changed since the last
    drain. *)
Theorem batch_keeps_order (cfg : config) (s : state) (id : nat) (st : stream)
    (digest : string) :
  reachable cfg s ->
  streams s !! id = Some st ->
  getRelativePath (localPath cfg) (s_path st) <> "length" ->
  s_path st <> "__proto__" ->
  array_index (s_path st) = None ->
  qualifying cfg s id digest = true ->
  exists s' acts,
    step cfg (StreamEnd id digest) s = Ok s' acts /\
    obj_keys (updates s')
    = (if decide (s_path st ∈ obj_keys (updates s))
       then obj_keys (updates s)
       else obj_keys (updates s) ++ [s_path st])%list /\
    (s_path st, getRelativePath (localPath cfg) (s_path st)) ∈ updates s'.
Proof.
  intros Hreach Hst Hk Hp Hi Hq. pose proof (reachable_inv cfg s Hreach) as Hinv.
  unfold qualifying in Hq. rewrite Hst in Hq. apply andb_prop in Hq as [Hchk Hr].
  destruct (on_hash_qualifying cfg _ _ s Hk Hchk Hr) as (s2 & a2 & Heq & _ & Hup & _).
  eexists _, a2. split.
  - rewrite (step_streamEnd cfg s id st digest Hinv Hst), Heq. simpl.
    rewrite app_nil_r. reflexivity.
  - cbn. rewrite Hup. split; [now apply obj_set_keys_eq | now apply obj_set_has].
Qed.

Lemma batch_keeps_order_witness :
  exists s' acts,
    step cfg0 (StreamEnd 1 digest_b) (state_of (run cfg0 tr_burst init)) = Ok s' acts /\
    obj_keys (updates s') = ["/proj/src/index.html"].
Proof.
  assert (Hreach : reachable cfg0 (state_of (run cfg0 tr_burst init))).
  { exists tr_burst, (log_of (run cfg0 tr_burst init)). vm_compute. reflexivity. }
  destruct (batch_keeps_order cfg0 _ 1%nat
              {| s_path := "/proj/src/index.html"; s_on := stream_listeners |} digest_b Hreach)
    as (s' & acts & Hstep & Hkeys & _);
    [vm_compute; reflexivity | vm_compute; discriminate | discriminate
    | vm_compute; reflexivity | vm_compute; reflexivity |].
  exists s', acts. split; [exact Hstep |]. rewrite Hkeys. vm_compute. reflexivity.
Defined.

Lemma step_reads (cfg : config) (e : event) (s s' : state) (acts : list action) :
  inv cfg s -> step cfg e s = Ok s' acts ->
  reads acts = match watched_path e with Some p => [p] | None => [] end.
Proof.
  intros Hinv Hstep. pose proof (step_cases cfg e s s' acts Hinv Hstep) as H.
  destruct e; cbn [watched_path].
  - destruct H as (_ & _ & ->). reflexivity.
  - unfold step, on_watcher_ready in Hstep. injection Hstep as _ <-. reflexivity.
  - simpl in Hstep. unfold on_all in Hstep.
    destruct (existsb _ _); injection Hstep as _ <-; reflexivity.
  - destruct H as (_ & ->). reflexivity.
  - destruct H as (st & s1 & _ & Hh & _).
    destruct (on_hash_acts cfg _ _ _ _ _ Hh) as [-> | [(msg & ->) | (t0 & msg & ->)]];
      reflexivity.
  - contradiction.
  - destruct H as (due & _ & _ & H).
    apply on_timeout_clients in H as (_ & _ & -> & _). reflexivity.
  - destruct H as (cl & g & _ & _ & _ & _ & ->). reflexivity.
  - destruct H as (cl & _ & _ & ->). reflexivity.
  - destruct H as (Hc & _). simpl in Hstep.
    rewrite bool_decide_eq_true_2 in Hstep by exact Hc. unfold on_sftp in Hstep.
    assert (Hfp : forall t u, reads (fastPut_all cfg t u) = []).
    { intros t u. revert t. induction u as [|[p r] u IH]; intros t; [reflexivity |].
      cbn. apply IH. }
    cbn [updates set_sessions transfers next_transfer] in Hstep.
    destruct (obj_has "hasOwnProperty" _); [discriminate Hstep |].
    destruct err as [x|]; [destruct (updates s) eqn:Hu; [| discriminate] |];
      injection Hstep as _ <-; unfold reads; cbn [app omap list_omap is_readStream];
      rewrite ?omap_app;
      try (fold (reads (fastPut_all cfg (next_transfer s) (updates s))));
      rewrite ?Hfp; reflexivity.
  - destruct H as (_ & _ & ->). now destruct err.
Qed.

(** X16.  Every ["add"] and every ["change"] event is hashed anew, whether
    or not the file is in the ledger and whether or not a hashing of the
    same file is under way: the read streams a run opens are, in order, on
    the paths the watcher reported as added or changed. *)
Theorem every_event_is_hashed (cfg : config) (tr : list event) (s s' : state)
    (log : list (Z * event * list action)) :
  reachable cfg s ->
  run cfg tr s = Done s' log ->
  reads (map snd (actions_of log)) = watched tr.
Proof.
  intros Hreach. pose proof (reachable_inv cfg s Hreach) as Hinv. clear Hreach.
  revert s log Hinv. induction tr as [|e tr IH]; intros s log Hinv Hrun.
  - now injection Hrun as <- <-.
  - apply run_cons in Hrun as (s1 & acts & log1 & Hs & Hr & ->).
    rewrite actions_of_cons. unfold reads in *.
    rewrite omap_app, (IH s1 log1 (step_inv cfg e s s1 acts Hinv Hs) Hr).
    pose proof (step_reads cfg e s s1 acts Hinv Hs) as Hre. unfold reads in Hre.
    rewrite Hre. unfold watched. simpl. now destruct (watched_path e).
Qed.

Lemma every_event_is_hashed_witness :
  reads (map snd (actions_of (log_of (run cfg0 tr_race init))))
  = ["/proj/src/a.css"; "/proj/src/a.css"].
Proof.
  assert (Hrun : run cfg0 tr_race init
                 = Done (state_of (run cfg0 tr_race init)) (log_of (run cfg0 tr_race init)))
    by (vm_compute; reflexivity).
  assert (Hreach : reachable cfg0 init) by (exists [], []; reflexivity).
  rewrite (every_event_is_hashed cfg0 tr_race init _ _ Hreach Hrun).
  vm_compute. reflexivity.
Defined.

(** ** The default ignore pattern *)

Lemma default_ignored_append_l (a b : string) :
  default_ignored a = true -> default_ignored (a +:+ b) = true.
Proof.
  induction a as [|c a IH]; [discriminate |].
  change (default_ignored (String c a +:+ b))
    with ((is_separator c && starts_with_dot (a +:+ b)) || default_ignored (a +:+ b)).
  simpl. intros H. apply orb_prop in H as [H | H].
  - apply andb_prop in H as [Hc Hd]. rewrite Hc.
    destruct a as [|d a]; [discriminate |]. simpl in Hd |- *. now rewrite Hd.
  - rewrite (IH H). apply orb_true_r.
Qed.

Lemma default_ignored_append_r (a b : string) :
  default_ignored b = true -> default_ignored (a +:+ b) = true.
Proof.
  intros Hb. induction a as [|c a IH]; [exact Hb |].
  change (default_ignored (String c a +:+ b))
    with ((is_separator c && starts_with_dot (a +:+ b)) || default_ignored (a +:+ b)).
  rewrite IH. apply orb_true_r.
Qed.

(** X17.  The default ignore pattern matches a path exactly when a slash or
    a backslash is followed by a dot somewhere in it.  So it matches every
    path that begins or ends with a matching path: everything below a dot
    directory, and every file below a local root that itself lies in one. *)
Theorem default_ignored_spec (path : string) :
  (default_ignored path = true <->
   exists a c b, path = a +:+ String c (String dot b) /\ is_separator c = true) /\
  (forall rest, default_ignored path = true -> default_ignored (path +:+ rest) = true) /\
  (forall root, default_ignored path = true -> default_ignored (root +:+ path) = true).
Proof.
  split; [| split].
  - split.
    + induction path as [|c r IH]; [discriminate |]. simpl. intros H.
      apply orb_prop in H as [H | H].
      * apply andb_prop in H as [Hc Hd]. destruct r as [|d r]; [discriminate |].
        simpl in Hd. apply Ascii.eqb_eq in Hd. subst d.
        exists EmptyString, c, r. split; [reflexivity | exact Hc].
      * destruct (IH H) as (a & c' & b & -> & Hc').
        exists (String c a), c', b. split; [reflexivity | exact Hc'].
    + intros (a & c & b & -> & Hc). apply default_ignored_append_r.
      simpl. rewrite Hc. reflexivity.
  - intros rest H. now apply default_ignored_append_l.
  - intros root H. now apply default_ignored_append_r.
Qed.

Lemma default_ignored_spec_witness :
  default_ignored ("/home/dev/.cache/site" +:+ "/index.html") = true /\
  default_ignored ".env" = false /\
  default_ignored "/proj/src/a.min.css" = false.
Proof.
  destruct (default_ignored_spec "/home/dev/.cache/site") as (_ & Hbelow & _).
  split; [apply Hbelow; reflexivity | split; reflexivity].
Defined.
